(** * finarith: checked 64-bit arithmetic and the rounding engine

    A shallow embedding of the Go packages [errors], [safeint], [safeuint]
    and [rounding] of nduyhai/finarith, followed by the properties of the
    specification that concern them.

    Go's fixed-width integers are embedded as [Z] with the two's-complement
    wrap-around of every arithmetic operator written out; a Go result pair
    [(v, err)] is embedded as [Z * option error], [None] standing for [nil]. *)

From Stdlib Require Import ZArith Lia Bool String List.
From Stdlib Require Import Floats.SpecFloat.

Local Open Scope Z_scope.

(** ** Machine integers *)

Module Int64.

Definition MaxInt64 : Z := 9223372036854775807.
Definition MinInt64 : Z := -9223372036854775808.
Definition modulus : Z := 18446744073709551616.

(** Membership in the signed 64-bit range. *)
Definition in_range (z : Z) : Prop := MinInt64 <= z <= MaxInt64.

Definition in_rangeb (z : Z) : bool := (MinInt64 <=? z) && (z <=? MaxInt64).

(** Two's-complement reduction of a mathematical integer to [int64]. *)
Definition wrap (z : Z) : Z := (z - MinInt64) mod modulus + MinInt64.

(** Go's [+], [-], [*] on [int64]. *)
Definition add (a b : Z) : Z := wrap (a + b).
Definition sub (a b : Z) : Z := wrap (a - b).
Definition mul (a b : Z) : Z := wrap (a * b).
Definition neg (a : Z) : Z := wrap (- a).

(** Go's [/] and [%] on [int64]: the quotient is truncated toward zero and
    the remainder has the sign of the dividend.  [MinInt64 / -1] wraps to
    [MinInt64].  A zero divisor is a run-time panic in Go; every division
    of the embedded functions is guarded against it. *)
Definition quo (a b : Z) : Z := wrap (Z.quot a b).
Definition rem (a b : Z) : Z := Z.rem a b.

End Int64.

Module Uint64.

Definition MaxUint64 : Z := 18446744073709551615.
Definition modulus : Z := 18446744073709551616.

Definition in_range (z : Z) : Prop := 0 <= z <= MaxUint64.

Definition wrap (z : Z) : Z := z mod modulus.

(** Go's [+], [-], [*], [/] on [uint64]. *)
Definition add (a b : Z) : Z := wrap (a + b).
Definition sub (a b : Z) : Z := wrap (a - b).
Definition mul (a b : Z) : Z := wrap (a * b).
Definition quo (a b : Z) : Z := Z.quot a b.

End Uint64.

(** ** Package errors *)

Module Errors.

(** The dynamic values stored in the [interface{}] fields of the error
    structs: the operands and results of the two integer packages. *)
Inductive any : Type :=
| OfInt64 (v : Z)
| OfUint64 (v : Z).

(** The six sentinel errors and the two context-carrying error structs. *)
Inductive error : Type :=
| ErrOverflow
| ErrDivideByZero
| ErrNegativeValue
| ErrExceedsLimit
| ErrInvalidPrecision
| ErrInvalidRounding
| OverflowError (Operation : string) (A B : any)
| LimitError (Value Limit : any) (Operation : string).

Definition NewOverflowError (op : string) (a b : any) : error :=
  OverflowError op a b.

Definition NewLimitError (value limit : any) (operation : string) : error :=
  LimitError value limit operation.

Definition sentinel_eqb (e t : error) : bool :=
  match e, t with
  | ErrOverflow, ErrOverflow
  | ErrDivideByZero, ErrDivideByZero
  | ErrNegativeValue, ErrNegativeValue
  | ErrExceedsLimit, ErrExceedsLimit
  | ErrInvalidPrecision, ErrInvalidPrecision
  | ErrInvalidRounding, ErrInvalidRounding => true
  | _, _ => false
  end.

(** [errors.Is err target] for a sentinel [target]: identity of the
    sentinels, and the [Is] methods of the two structs. *)
Definition Is (e target : error) : bool :=
  match e with
  | OverflowError _ _ _ => sentinel_eqb target ErrOverflow
  | LimitError _ _ _ => sentinel_eqb target ErrExceedsLimit
  | _ => sentinel_eqb e target
  end.

End Errors.

Import Errors.

(** A Go result pair. *)
Definition result : Type := (Z * option error)%type.

Definition ok (v : Z) : result := (v, None).
Definition fail (v : Z) (e : error) : result := (v, Some e).

(** ** Package safeint *)

Module Safeint.

Import Int64.

Definition Add (a b : Z) : result :=
  if (b >? 0) && (a >? sub MaxInt64 b) then
    fail 0 (NewOverflowError "+" (OfInt64 a) (OfInt64 b))
  else if (b <? 0) && (a <? sub MinInt64 b) then
    fail 0 (NewOverflowError "+" (OfInt64 a) (OfInt64 b))
  else ok (add a b).

Definition Sub (a b : Z) : result :=
  if (b <? 0) && (a >? add MaxInt64 b) then
    fail 0 (NewOverflowError "-" (OfInt64 a) (OfInt64 b))
  else if (b >? 0) && (a <? add MinInt64 b) then
    fail 0 (NewOverflowError "-" (OfInt64 a) (OfInt64 b))
  else ok (sub a b).

Definition Mul (a b : Z) : result :=
  if (a =? 0) || (b =? 0) then ok 0
  else
    let overflow :=
      if (a >? 0) && (b >? 0) then a >? quo MaxInt64 b
      else if (a <? 0) && (b <? 0) then a <? quo MaxInt64 b
      else if (a >? 0) && (b <? 0) then b <? quo MinInt64 a
      else if (a <? 0) && (b >? 0) then a <? quo MinInt64 b
      else false in
    if overflow then fail 0 (NewOverflowError "*" (OfInt64 a) (OfInt64 b))
    else ok (mul a b).

Definition AddWithLimit (a b limit : Z) : result :=
  match Add a b with
  | (_, Some err) => fail 0 err
  | (r, None) =>
      if r >? limit then
        fail 0 (NewLimitError (OfInt64 r) (OfInt64 limit) "addition")
      else ok r
  end.

Definition SubWithFloor (a b floor : Z) : result :=
  match Sub a b with
  | (_, Some err) => fail 0 err
  | (r, None) =>
      if r <? floor then
        fail 0 (NewLimitError (OfInt64 r) (OfInt64 floor) "subtraction floor")
      else ok r
  end.

Definition MulWithLimit (a b limit : Z) : result :=
  match Mul a b with
  | (_, Some err) => fail 0 err
  | (r, None) =>
      if r >? limit then
        fail 0 (NewLimitError (OfInt64 r) (OfInt64 limit) "multiplication")
      else ok r
  end.

End Safeint.

(** ** Package safeuint *)

Module Safeuint.

Import Uint64.

Definition Add (a b : Z) : result :=
  if (b >? 0) && (a >? sub MaxUint64 b) then
    fail 0 (NewOverflowError "+" (OfUint64 a) (OfUint64 b))
  else ok (add a b).

Definition Sub (a b : Z) : result :=
  if a <? b then
    fail 0 (NewOverflowError "-" (OfUint64 a) (OfUint64 b))
  else ok (sub a b).

Definition Mul (a b : Z) : result :=
  if (a =? 0) || (b =? 0) then ok 0
  else if a >? quo MaxUint64 b then
    fail 0 (NewOverflowError "*" (OfUint64 a) (OfUint64 b))
  else ok (mul a b).

Definition AddWithLimit (a b limit : Z) : result :=
  match Add a b with
  | (_, Some err) => fail 0 err
  | (r, None) =>
      if r >? limit then
        fail 0 (NewLimitError (OfUint64 r) (OfUint64 limit) "addition")
      else ok r
  end.

Definition SubWithFloor (a b floor : Z) : result :=
  match Sub a b with
  | (_, Some err) => fail 0 err
  | (r, None) =>
      if r <? floor then
        fail 0 (NewLimitError (OfUint64 r) (OfUint64 floor) "subtraction floor")
      else ok r
  end.

Definition MulWithLimit (a b limit : Z) : result :=
  match Mul a b with
  | (_, Some err) => fail 0 err
  | (r, None) =>
      if r >? limit then
        fail 0 (NewLimitError (OfUint64 r) (OfUint64 limit) "multiplication")
      else ok r
  end.

End Safeuint.

(** ** IEEE 754 binary64 and the functions of Go's [math] package

    [float64] values are the [spec_float] values of the standard library's
    specification of IEEE 754 arithmetic at precision 53 and maximal
    exponent 1024; arithmetic is round-to-nearest-even, operation by
    operation (no fused multiply-add).  NaN carries no payload. *)

Module Float64.

Definition prec : Z := 53.
Definition emax : Z := 1024.

Definition float64 : Type := spec_float.

Definition fadd : float64 -> float64 -> float64 := SFadd prec emax.
Definition fsub : float64 -> float64 -> float64 := SFsub prec emax.
Definition fmul : float64 -> float64 -> float64 := SFmul prec emax.
Definition fdiv : float64 -> float64 -> float64 := SFdiv prec emax.
Definition fneg : float64 -> float64 := SFopp.

(** Go's [==], [<], [>=] on [float64]: every comparison with NaN is
    false, and the two zeros are equal. *)
Definition feqb : float64 -> float64 -> bool := SFeqb.
Definition fltb : float64 -> float64 -> bool := SFltb.
Definition fgeb (x y : float64) : bool := SFleb y x.
Definition fneqb (x y : float64) : bool := negb (SFeqb x y).

(** The [float64] nearest to an integer, and to a positive ratio: the
    value of an integer or decimal literal. *)
Definition of_Z (z : Z) : float64 := binary_normalize prec emax z 0 false.

Definition of_ratio (n d : positive) : float64 :=
  fdiv (S754_finite false n 0) (S754_finite false d 0).

Definition zero : float64 := S754_zero false.
Definition one : float64 := of_Z 1.
Definition two : float64 := of_Z 2.
Definition half : float64 := of_ratio 1 2.
Definition lit_1e_10 : float64 := of_ratio 1 10000000000.
Definition NaN : float64 := S754_nan.
Definition Inf (neg : bool) : float64 := S754_infinity neg.

(** [math.IsNaN] and [math.IsInf(f, 0)]. *)
Definition IsNaN (f : float64) : bool :=
  match f with S754_nan => true | _ => false end.

Definition IsInf (f : float64) : bool :=
  match f with S754_infinity _ => true | _ => false end.

Definition Abs : float64 -> float64 := SFabs.

Definition signbit (f : float64) : bool :=
  match f with
  | S754_zero s | S754_infinity s | S754_finite s _ _ => s
  | S754_nan => false
  end.

(** [math.Copysign(1, x)]. *)
Definition copysign_one (x : float64) : float64 :=
  if signbit x then fneg one else one.

(** [math.Pow10]: products and quotients of the correctly rounded table
    entries [1e0 .. 1e31] and [1e0, 1e32, .., 1e288] ([1e-0 .. 1e-320]). *)
Definition pow10tab (k : Z) : float64 := of_Z (10 ^ k).
Definition pow10postab32 (i : Z) : float64 := of_Z (10 ^ (32 * i)).
Definition pow10negtab32 (i : Z) : float64 :=
  of_ratio 1 (Z.to_pos (10 ^ (32 * i))).

Definition Pow10 (n : Z) : float64 :=
  if (0 <=? n) && (n <=? 308) then
    fmul (pow10postab32 (n / 32)) (pow10tab (n mod 32))
  else if (-323 <=? n) && (n <=? 0) then
    fdiv (pow10negtab32 ((- n) / 32)) (pow10tab ((- n) mod 32))
  else if n >? 0 then Inf false
  else zero.

(** [math.Modf] on an argument that is not negative: below one the
    integer part is zero; from one on, the fraction bits of the
    representation are cleared. *)
Definition modf_nonneg (f : float64) : float64 * float64 :=
  if fltb f one then
    if feqb f zero then (f, f) else (zero, f)
  else
    match f with
    | S754_finite s m e =>
        let int :=
          if e <? 0 then
            binary_normalize prec emax
              (cond_Zopp s (Z.shiftr (Zpos m) (- e))) 0 s
          else f in
        (int, fsub f int)
    | _ => (f, fsub f f)
    end.

Definition Modf (f : float64) : float64 * float64 :=
  if fltb f one && fltb f zero then
    let '(int, frac) := modf_nonneg (fneg f) in (fneg int, fneg frac)
  else modf_nonneg f.

Definition Trunc (x : float64) : float64 :=
  if feqb x zero || IsNaN x || IsInf x then x
  else fst (Modf x).

Definition Floor (x : float64) : float64 :=
  if feqb x zero || IsNaN x || IsInf x then x
  else if fltb x zero then
    let '(d, fract) := Modf (fneg x) in
    let d := if fneqb fract zero then fadd d one else d in
    fneg d
  else fst (Modf x).

Definition Ceil (x : float64) : float64 := fneg (Floor (fneg x)).

(** [math.Round]: nearest integer, halves away from zero. *)
Definition Round (x : float64) : float64 :=
  let t := Trunc x in
  if fgeb (Abs (fsub x t)) half then fadd t (copysign_one x) else t.

(** [math.Mod]: the exact remainder of [x / y], with the sign of [x]. *)
Definition Mod (x y : float64) : float64 :=
  if feqb y zero || IsInf x || IsNaN x || IsNaN y then NaN
  else
    match x, y with
    | S754_finite sx mx ex, S754_finite _ my ey =>
        let e := Z.min ex ey in
        let X := Z.shiftl (Zpos mx) (ex - e) in
        let Y := Z.shiftl (Zpos my) (ey - e) in
        binary_normalize prec emax (cond_Zopp sx (X mod Y)) e sx
    | _, _ => x
    end.

End Float64.

(** ** Package rounding *)

Module Rounding.

Import Int64 Float64.

(** [type Mode int] and its seven constants. *)
Definition Mode : Type := Z.

Definition RoundDown : Mode := 0.
Definition RoundUp : Mode := 1.
Definition RoundHalfUp : Mode := 2.
Definition RoundHalfDown : Mode := 3.
Definition RoundHalfEven : Mode := 4.
Definition RoundCeiling : Mode := 5.
Definition RoundFloor : Mode := 6.

Definition defined_mode (m : Mode) : Prop := 0 <= m <= 6.

(** [func (m Mode) String() string]. *)
Definition String (m : Mode) : string :=
  if m =? RoundDown then "round_down"
  else if m =? RoundUp then "round_up"
  else if m =? RoundHalfUp then "round_half_up"
  else if m =? RoundHalfDown then "round_half_down"
  else if m =? RoundHalfEven then "round_half_even"
  else if m =? RoundCeiling then "round_ceiling"
  else if m =? RoundFloor then "round_floor"
  else "unknown".

Definition fresult : Type := (float64 * option error)%type.

Definition RoundFloat64 (value : float64) (decimals : Z) (mode : Mode)
  : fresult :=
  if decimals <? 0 then (zero, Some ErrInvalidPrecision)
  else if IsNaN value || IsInf value then (value, None)
  else
    let multiplier := Pow10 decimals in
    if mode =? RoundDown then
      (fdiv (Trunc (fmul value multiplier)) multiplier, None)
    else if mode =? RoundUp then
      if fgeb value zero then
        (fdiv (Ceil (fmul value multiplier)) multiplier, None)
      else (fdiv (Floor (fmul value multiplier)) multiplier, None)
    else if mode =? RoundHalfUp then
      if fgeb value zero then
        (fdiv (Floor (fadd (fmul value multiplier) half)) multiplier, None)
      else
        (fdiv (Ceil (fsub (fmul value multiplier) half)) multiplier, None)
    else if mode =? RoundHalfDown then
      if fgeb value zero then
        (fdiv (Floor (fsub (fadd (fmul value multiplier) half) lit_1e_10))
           multiplier, None)
      else
        (fdiv (Ceil (fadd (fsub (fmul value multiplier) half) lit_1e_10))
           multiplier, None)
    else if mode =? RoundHalfEven then
      let scaled := fmul value multiplier in
      let '(intPart, fracPart) := Modf scaled in
      if feqb (Abs fracPart) half then
        if feqb (Mod intPart two) zero then (fdiv intPart multiplier, None)
        else if fgeb intPart zero then
          (fdiv (fadd intPart one) multiplier, None)
        else (fdiv (fsub intPart one) multiplier, None)
      else (fdiv (Round scaled) multiplier, None)
    else if mode =? RoundCeiling then
      (fdiv (Ceil (fmul value multiplier)) multiplier, None)
    else if mode =? RoundFloor then
      (fdiv (Floor (fmul value multiplier)) multiplier, None)
    else (zero, Some ErrInvalidRounding).

Definition RoundInt64 (value unit : Z) (mode : Mode) : result :=
  if unit <=? 0 then fail 0 ErrInvalidPrecision
  else if mode =? RoundDown then
    if value >=? 0 then ok (mul (quo value unit) unit)
    else ok (mul (quo (sub (add value unit) 1) unit) unit)
  else if mode =? RoundUp then
    if value >=? 0 then ok (mul (quo (sub (add value unit) 1) unit) unit)
    else ok (mul (quo value unit) unit)
  else if mode =? RoundHalfUp then
    let halfUnit := quo unit 2 in
    if value >=? 0 then ok (mul (quo (add value halfUnit) unit) unit)
    else ok (mul (quo (sub value halfUnit) unit) unit)
  else if mode =? RoundHalfDown then
    let halfUnit := quo unit 2 in
    if value >=? 0 then
      if rem value unit =? halfUnit then ok (mul (quo value unit) unit)
      else ok (mul (quo (add value halfUnit) unit) unit)
    else if rem (neg value) unit =? halfUnit then
      ok (mul (quo value unit) unit)
    else ok (mul (quo (sub value halfUnit) unit) unit)
  else if mode =? RoundHalfEven then
    let halfUnit := quo unit 2 in
    if (rem value unit =? halfUnit) || (rem value unit =? neg halfUnit) then
      let quotient := quo value unit in
      if rem quotient 2 =? 0 then ok (mul quotient unit)
      else if quotient >=? 0 then ok (mul (add quotient 1) unit)
      else ok (mul (sub quotient 1) unit)
    else if value >=? 0 then ok (mul (quo (add value halfUnit) unit) unit)
    else ok (mul (quo (sub value halfUnit) unit) unit)
  else if mode =? RoundCeiling then
    if rem value unit =? 0 then ok value
    else if value >? 0 then
      ok (mul (quo (sub (add value unit) 1) unit) unit)
    else ok (mul (quo value unit) unit)
  else if mode =? RoundFloor then
    if rem value unit =? 0 then ok value
    else if value >? 0 then ok (mul (quo value unit) unit)
    else ok (mul (quo (add (sub value unit) 1) unit) unit)
  else fail 0 ErrInvalidRounding.

End Rounding.

(** ** Package safedec

    [safedec.Decimal] wraps a value of the external library
    shopspring/decimal and forwards to it.  The library is a parameter of
    the embedding: its type of decimals and the operations that the
    embedded wrappers call. *)

Module Safedec.

Record DecimalLib : Type := {
  decimal : Type;
  (** [decimal.Decimal{}], [decimal.Zero] and [decimal.NewFromInt]. *)
  decimal_empty : decimal;
  decimal_Zero : decimal;
  decimal_NewFromInt : Z -> decimal;
  decimal_Add : decimal -> decimal -> decimal;
  decimal_Sub : decimal -> decimal -> decimal;
  decimal_Mul : decimal -> decimal -> decimal;
  decimal_Div : decimal -> decimal -> decimal;
  decimal_IsZero : decimal -> bool;
  decimal_IsNegative : decimal -> bool;
  decimal_GreaterThan : decimal -> decimal -> bool;
  decimal_LessThan : decimal -> decimal -> bool;
  (** The six rounding methods, each taking the number of places. *)
  decimal_RoundDown : decimal -> Z -> decimal;
  decimal_RoundUp : decimal -> Z -> decimal;
  decimal_Round : decimal -> Z -> decimal;
  decimal_RoundBank : decimal -> Z -> decimal;
  decimal_RoundCeil : decimal -> Z -> decimal;
  decimal_RoundFloor : decimal -> Z -> decimal
}.

Section Wrappers.

Variable L : DecimalLib.

(** [type Decimal struct { value decimal.Decimal }]. *)
Record Decimal : Type := mkDecimal { value : decimal L }.

(** The zero value [Decimal{}] returned beside an error. *)
Definition empty : Decimal := mkDecimal (decimal_empty L).

Definition dresult : Type := (Decimal * option error)%type.

Definition NewFromInt (v : Z) : Decimal := mkDecimal (decimal_NewFromInt L v).

Definition Zero : Decimal := mkDecimal (decimal_Zero L).

Definition GreaterThan (d other : Decimal) : bool :=
  decimal_GreaterThan L (value d) (value other).

Definition LessThan (d other : Decimal) : bool :=
  decimal_LessThan L (value d) (value other).

Definition IsZero (d : Decimal) : bool := decimal_IsZero L (value d).

Definition IsNegative (d : Decimal) : bool := decimal_IsNegative L (value d).

Definition Add (d other : Decimal) : Decimal :=
  mkDecimal (decimal_Add L (value d) (value other)).

Definition Sub (d other : Decimal) : Decimal :=
  mkDecimal (decimal_Sub L (value d) (value other)).

Definition SubNonNegative (d other : Decimal) : dresult :=
  let result := Sub d other in
  if IsNegative result then (empty, Some ErrNegativeValue)
  else (result, None).

Definition Mul (d other : Decimal) : Decimal :=
  mkDecimal (decimal_Mul L (value d) (value other)).

Definition Div (d other : Decimal) : dresult :=
  if IsZero other then (empty, Some ErrDivideByZero)
  else (mkDecimal (decimal_Div L (value d) (value other)), None).

Definition DivRound (d other : Decimal) (places : Z) (mode : Rounding.Mode)
  : dresult :=
  if IsZero other then (empty, Some ErrDivideByZero)
  else
    let result := decimal_Div L (value d) (value other) in
    if mode =? Rounding.RoundDown then
      (mkDecimal (decimal_RoundDown L result places), None)
    else if mode =? Rounding.RoundUp then
      (mkDecimal (decimal_RoundUp L result places), None)
    else if mode =? Rounding.RoundHalfUp then
      (mkDecimal (decimal_Round L result places), None)
    else if mode =? Rounding.RoundHalfEven then
      (mkDecimal (decimal_RoundBank L result places), None)
    else if mode =? Rounding.RoundCeiling then
      (mkDecimal (decimal_RoundCeil L result places), None)
    else if mode =? Rounding.RoundFloor then
      (mkDecimal (decimal_RoundFloor L result places), None)
    else (empty, Some ErrInvalidRounding).

Definition Round (d : Decimal) (places : Z) (mode : Rounding.Mode)
  : dresult :=
  if mode =? Rounding.RoundDown then
    (mkDecimal (decimal_RoundDown L (value d) places), None)
  else if mode =? Rounding.RoundUp then
    (mkDecimal (decimal_RoundUp L (value d) places), None)
  else if mode =? Rounding.RoundHalfUp then
    (mkDecimal (decimal_Round L (value d) places), None)
  else if mode =? Rounding.RoundHalfEven then
    (mkDecimal (decimal_RoundBank L (value d) places), None)
  else if mode =? Rounding.RoundCeiling then
    (mkDecimal (decimal_RoundCeil L (value d) places), None)
  else if mode =? Rounding.RoundFloor then
    (mkDecimal (decimal_RoundFloor L (value d) places), None)
  else (empty, Some ErrInvalidRounding).

Definition MinValue (a b : Decimal) : Decimal :=
  if LessThan a b then a else b.

Definition MaxValue (a b : Decimal) : Decimal :=
  if GreaterThan a b then a else b.

End Wrappers.

Arguments value {L} _.

(** The modes that the switches of [Round] and [DivRound] list. *)
Definition accepted_mode (m : Rounding.Mode) : Prop :=
  0 <= m <= 6 /\ m <> Rounding.RoundHalfDown.

End Safedec.

(** ** Package rules: the tax rule *)

Module Rules.

Section TaxRules.

Variable L : Safedec.DecimalLib.

Record TaxRule : Type := {
  TaxRate : Safedec.Decimal L;
  MinTaxableAmount : Safedec.Decimal L;
  MaxTaxAmount : Safedec.Decimal L;
  RoundingMode : Rounding.Mode;
  RoundingPrecision : Z
}.

Definition CalculateTax (r : TaxRule) (taxableAmount : Safedec.Decimal L)
  : Safedec.dresult L :=
  if Safedec.LessThan L taxableAmount (MinTaxableAmount r) then
    (Safedec.Zero L, None)
  else
    let hundred := Safedec.NewFromInt L 100 in
    match Safedec.Div L (Safedec.Mul L taxableAmount (TaxRate r)) hundred with
    | (_, Some err) => (Safedec.Zero L, Some err)
    | (taxAmount, None) =>
        match Safedec.Round L taxAmount (RoundingPrecision r)
                (RoundingMode r) with
        | (_, Some err) => (Safedec.Zero L, Some err)
        | (taxAmount, None) =>
            if Safedec.GreaterThan L taxAmount (MaxTaxAmount r) then
              (MaxTaxAmount r, None)
            else (taxAmount, None)
        end
    end.

End TaxRules.

End Rules.

(** A decimal library over the integers, every value having zero places:
    an instance at which the embedded wrappers can be run. *)
Definition integer_decimals : Safedec.DecimalLib := {|
  Safedec.decimal := Z;
  Safedec.decimal_empty := 0;
  Safedec.decimal_Zero := 0;
  Safedec.decimal_NewFromInt := fun v => v;
  Safedec.decimal_Add := Z.add;
  Safedec.decimal_Sub := Z.sub;
  Safedec.decimal_Mul := Z.mul;
  Safedec.decimal_Div := Z.quot;
  Safedec.decimal_IsZero := fun d => d =? 0;
  Safedec.decimal_IsNegative := fun d => d <? 0;
  Safedec.decimal_GreaterThan := fun a b => b <? a;
  Safedec.decimal_LessThan := fun a b => a <? b;
  Safedec.decimal_RoundDown := fun d _ => d;
  Safedec.decimal_RoundUp := fun d _ => d;
  Safedec.decimal_Round := fun d _ => d;
  Safedec.decimal_RoundBank := fun d _ => d;
  Safedec.decimal_RoundCeil := fun d _ => d;
  Safedec.decimal_RoundFloor := fun d _ => d
|}.

(** ** Vocabulary of the specification *)

(** An operation [op] on [a] and [b] fails with the overflow error: the
    error struct names the operator and both operands, is of the
    [ErrOverflow] kind, and comes with the zero value. *)
Definition overflows (r : result) (op : string) (a b : any) : Prop :=
  r = fail 0 (OverflowError op a b) /\
  Is (OverflowError op a b) ErrOverflow = true.

(** A result pair whose error is not nil has the zero value. *)
Definition zero_on_failure (r : result) : Prop :=
  forall e, snd r = Some e -> fst r = 0.

(** A limit failure of a bounded variant carries the value [v] computed by
    the underlying checked operation in its payload. *)
Definition limit_payload (r : result) (v : any) : Prop :=
  forall x l op, snd r = Some (LimitError x l op) -> x = v.

(** [value] lies exactly halfway between two adjacent multiples of [unit]. *)
Definition exact_half (value unit : Z) : Prop :=
  2 * Z.abs (Z.rem value unit) = unit.

(** [m] is the multiple of [unit] next to the tie [value] whose quotient by
    [unit] is even. *)
Definition even_neighbour (value unit m : Z) : Prop :=
  exists q, Z.even q = true /\ m = q * unit /\ 2 * Z.abs (m - value) = unit.

(** The [float64] next below the one nearest to [0.1]. *)
Definition below_tenth : Float64.float64 :=
  S754_finite false 7205759403792793 (-56).

(** [math.Pow10 n] is a positive finite [float64]. *)
Definition pow10_positive_finite (n : Z) : bool :=
  match Float64.Pow10 n with
  | S754_finite false _ _ => true
  | _ => false
  end.

(** The largest finite [float64], [math.MaxFloat64]. *)
Definition MaxFloat64 : Float64.float64 :=
  S754_finite false 9007199254740991 971.

(** * Properties *)

(** ** Wrap-around and truncated division *)

Lemma int64_wrap_small z : Int64.in_range z -> Int64.wrap z = z.
Proof.
  unfold Int64.in_range, Int64.wrap, Int64.MinInt64, Int64.MaxInt64,
    Int64.modulus.
  intros H. rewrite Z.mod_small; lia.
Qed.

Lemma int64_wrap_spec z :
  exists k, Int64.wrap z = z + k * 18446744073709551616 /\
            -9223372036854775808 <= Int64.wrap z <= 9223372036854775807.
Proof.
  unfold Int64.wrap, Int64.MinInt64, Int64.modulus.
  exists (- ((z - -9223372036854775808) / 18446744073709551616)).
  pose proof (Z.div_mod (z - -9223372036854775808) 18446744073709551616
                ltac:(lia)).
  pose proof (Z.mod_pos_bound (z - -9223372036854775808) 18446744073709551616
                ltac:(lia)).
  lia.
Qed.

Lemma uint64_wrap_small z : Uint64.in_range z -> Uint64.wrap z = z.
Proof.
  unfold Uint64.in_range, Uint64.wrap, Uint64.MaxUint64, Uint64.modulus.
  intros H. rewrite Z.mod_small; lia.
Qed.

Lemma uint64_wrap_spec z :
  exists k, Uint64.wrap z = z + k * 18446744073709551616 /\
            0 <= Uint64.wrap z <= 18446744073709551615.
Proof.
  unfold Uint64.wrap, Uint64.modulus.
  exists (- (z / 18446744073709551616)).
  pose proof (Z.div_mod z 18446744073709551616 ltac:(lia)).
  pose proof (Z.mod_pos_bound z 18446744073709551616 ltac:(lia)).
  lia.
Qed.

Lemma int64_in_rangeb_spec z :
  Bool.reflect (Int64.in_range z) (Int64.in_rangeb z).
Proof.
  unfold Int64.in_range, Int64.in_rangeb.
  apply Bool.iff_reflect. rewrite Bool.andb_true_iff, !Z.leb_le. tauto.
Qed.

Ltac int64_bounds :=
  unfold Int64.in_range, Int64.MinInt64, Int64.MaxInt64,
    Uint64.in_range, Uint64.MaxUint64 in *.

(** Replace every wrapped expression of the goal by a fresh integer that is
    congruent to it and lies in the machine range. *)
Ltac abstract_wraps :=
  repeat match goal with
    | |- context [Int64.wrap ?z] =>
        let k := fresh "k" in let w := fresh "w" in
        let Hk := fresh "Hk" in let Hw := fresh "Hw" in
        destruct (int64_wrap_spec z) as [k [Hk Hw]];
        generalize dependent (Int64.wrap z); intros w Hk Hw
    | |- context [Uint64.wrap ?z] =>
        let k := fresh "k" in let w := fresh "w" in
        let Hk := fresh "Hk" in let Hw := fresh "Hw" in
        destruct (uint64_wrap_spec z) as [k [Hk Hw]];
        generalize dependent (Uint64.wrap z); intros w Hk Hw
    end.

(** Case analysis on the integer comparisons of the goal, pruning the
    branches that contradict the context as they appear. *)
Ltac bool_cases :=
  repeat match goal with
    | |- context [Z.gtb ?x ?y] => rewrite (Z.gtb_ltb x y)
    | |- context [Z.geb ?x ?y] => rewrite (Z.geb_leb x y)
    end;
  repeat (match goal with
    | |- context [Z.ltb ?x ?y] => destruct (Z.ltb_spec x y)
    | |- context [Z.leb ?x ?y] => destruct (Z.leb_spec x y)
    | |- context [Z.eqb ?x ?y] => destruct (Z.eqb_spec x y)
    end; try (exfalso; lia); cbn [andb orb negb]).

Ltac close_result :=
  first [ exfalso; lia | reflexivity
        | unfold ok, fail; repeat f_equal; lia ].

Lemma quot_lt_iff M a b : 0 <= M -> 0 < b -> (Z.quot M b < a <-> M < a * b).
Proof.
  intros HM Hb. rewrite Z.quot_div_nonneg by lia.
  pose proof (Z.div_mod M b ltac:(lia)).
  pose proof (Z.mod_pos_bound M b Hb).
  split; intros; nia.
Qed.

Lemma quot_nonneg_bounds M b : 0 <= M -> 0 < b -> 0 <= Z.quot M b <= M.
Proof.
  intros HM Hb. rewrite Z.quot_div_nonneg by lia.
  pose proof (Z.div_mod M b ltac:(lia)).
  pose proof (Z.mod_pos_bound M b Hb).
  split; nia.
Qed.

(** ** Checked signed arithmetic *)

Section SafeintFacts.

Import Int64 Safeint.

Lemma Add_spec a b :
  in_range a -> in_range b ->
  Add a b = if in_rangeb (a + b) then ok (a + b)
            else fail 0 (OverflowError "+" (OfInt64 a) (OfInt64 b)).
Proof.
  intros Ha Hb. unfold Add, NewOverflowError, sub, add, in_rangeb.
  int64_bounds. abstract_wraps. bool_cases; close_result.
Qed.

Lemma Sub_spec a b :
  in_range a -> in_range b ->
  Sub a b = if in_rangeb (a - b) then ok (a - b)
            else fail 0 (OverflowError "-" (OfInt64 a) (OfInt64 b)).
Proof.
  intros Ha Hb. unfold Sub, NewOverflowError, sub, add, in_rangeb.
  int64_bounds. abstract_wraps. bool_cases; close_result.
Qed.

Lemma quo_Max_pos b : 0 < b -> quo MaxInt64 b = Z.quot MaxInt64 b.
Proof.
  intros Hb. unfold quo. apply int64_wrap_small.
  pose proof (quot_nonneg_bounds MaxInt64 b). int64_bounds. lia.
Qed.

Lemma quo_Max_neg b : b < 0 -> quo MaxInt64 b = - Z.quot MaxInt64 (- b).
Proof.
  intros Hb. unfold quo.
  replace b with (- - b) at 1 by lia. rewrite Z.quot_opp_r by lia.
  apply int64_wrap_small.
  pose proof (quot_nonneg_bounds MaxInt64 (- b)). int64_bounds. lia.
Qed.

Lemma quo_Min_pos b : 0 < b -> quo MinInt64 b = - Z.quot (- MinInt64) b.
Proof.
  intros Hb. unfold quo.
  replace MinInt64 with (- - MinInt64) at 1 by reflexivity.
  rewrite Z.quot_opp_l by lia.
  apply int64_wrap_small.
  pose proof (quot_nonneg_bounds (- MinInt64) b). int64_bounds. lia.
Qed.

(** The four sign quadrants of [Mul], each reduced to the comparison of
    the exact product with the bound. *)
Lemma Mul_spec a b :
  in_range a -> in_range b ->
  Mul a b = if in_rangeb (a * b) then ok (a * b)
            else fail 0 (OverflowError "*" (OfInt64 a) (OfInt64 b)).
Proof.
  intros Ha Hb. unfold Mul, NewOverflowError, mul, in_rangeb.
  destruct (Z.eqb_spec a 0) as [->|Ha0]; [reflexivity|].
  destruct (Z.eqb_spec b 0) as [->|Hb0]; [rewrite Z.mul_0_r; reflexivity|].
  cbn [orb].
  assert (Hq : (0 < a /\ 0 < b) \/ (a < 0 /\ b < 0) \/
               (0 < a /\ b < 0) \/ (a < 0 /\ 0 < b)) by lia.
  destruct Hq as [[Has Hbs]|[[Has Hbs]|[[Has Hbs]|[Has Hbs]]]].
  - rewrite (quo_Max_pos b) by lia.
    pose proof (quot_lt_iff MaxInt64 a b ltac:(int64_bounds; lia) Hbs)
      as Hiff.
    assert (Hp : 0 < a * b) by (apply Z.mul_pos_pos; lia).
    revert Hiff Hp. generalize (a * b) (Z.quot MaxInt64 b).
    intros p q Hiff Hp.
    int64_bounds. abstract_wraps. bool_cases; close_result.
  - rewrite (quo_Max_neg b) by lia.
    pose proof (quot_lt_iff MaxInt64 (- a) (- b)
                  ltac:(int64_bounds; lia) ltac:(lia)) as Hiff.
    rewrite Z.mul_opp_opp in Hiff.
    assert (Hp : 0 < a * b) by (apply Z.mul_neg_neg; lia).
    revert Hiff Hp. generalize (a * b) (Z.quot MaxInt64 (- b)).
    intros p q Hiff Hp.
    int64_bounds. abstract_wraps. bool_cases; close_result.
  - rewrite (quo_Min_pos a) by lia.
    pose proof (quot_lt_iff (- MinInt64) (- b) a
                  ltac:(int64_bounds; lia) Has) as Hiff.
    replace (- b * a) with (- (a * b)) in Hiff by ring.
    assert (Hp : a * b < 0) by (apply Z.mul_pos_neg; lia).
    revert Hiff Hp. generalize (a * b) (Z.quot (- MinInt64) a).
    intros p q Hiff Hp.
    int64_bounds. abstract_wraps. bool_cases; close_result.
  - rewrite (quo_Min_pos b) by lia.
    pose proof (quot_lt_iff (- MinInt64) (- a) b
                  ltac:(int64_bounds; lia) Hbs) as Hiff.
    replace (- a * b) with (- (a * b)) in Hiff by ring.
    assert (Hp : a * b < 0) by (apply Z.mul_neg_pos; lia).
    revert Hiff Hp. generalize (a * b) (Z.quot (- MinInt64) b).
    intros p q Hiff Hp.
    int64_bounds. abstract_wraps. bool_cases; close_result.
Qed.

End SafeintFacts.

(** C1.  For all signed 64-bit [a] and [b], each of [Add], [Sub] and [Mul]
    of package safeint returns the exact mathematical sum, difference or
    product with a nil error whenever that result lies in
    [[-2^63, 2^63-1]], and the Overflow failure otherwise. *)
Theorem safeint_checked_arithmetic (a b : Z) :
  Int64.in_range a -> Int64.in_range b ->
  (Int64.in_range (a + b) -> Safeint.Add a b = ok (a + b)) /\
  (~ Int64.in_range (a + b) ->
   overflows (Safeint.Add a b) "+" (OfInt64 a) (OfInt64 b)) /\
  (Int64.in_range (a - b) -> Safeint.Sub a b = ok (a - b)) /\
  (~ Int64.in_range (a - b) ->
   overflows (Safeint.Sub a b) "-" (OfInt64 a) (OfInt64 b)) /\
  (Int64.in_range (a * b) -> Safeint.Mul a b = ok (a * b)) /\
  (~ Int64.in_range (a * b) ->
   overflows (Safeint.Mul a b) "*" (OfInt64 a) (OfInt64 b)).
Proof.
  intros Ha Hb. unfold overflows.
  rewrite (Add_spec a b Ha Hb), (Sub_spec a b Ha Hb), (Mul_spec a b Ha Hb).
  destruct (int64_in_rangeb_spec (a + b)), (int64_in_rangeb_spec (a - b)),
    (int64_in_rangeb_spec (a * b)); repeat split; intros; tauto.
Qed.

Lemma safeint_checked_arithmetic_witness :
  Int64.in_range 9223372036854775807 /\ Int64.in_range 1 /\
  overflows (Safeint.Add 9223372036854775807 1) "+"
    (OfInt64 9223372036854775807) (OfInt64 1) /\
  Safeint.Sub 9223372036854775807 1 = ok (9223372036854775807 - 1) /\
  Safeint.Mul 9223372036854775807 1 = ok (9223372036854775807 * 1).
Proof.
  assert (Ha : Int64.in_range 9223372036854775807) by (int64_bounds; lia).
  assert (Hb : Int64.in_range 1) by (int64_bounds; lia).
  destruct (safeint_checked_arithmetic 9223372036854775807 1 Ha Hb)
    as (_ & HA & HS & _ & HM & _).
  split; [exact Ha | split; [exact Hb | split; [| split]]].
  - apply HA. int64_bounds. lia.
  - apply HS. int64_bounds. lia.
  - apply HM. int64_bounds. lia.
Defined.

(** ** Bounded signed variants *)

(** C7.  [AddWithLimit], [SubWithFloor] and [MulWithLimit] of package
    safeint hand on the failure of the checked operation unchanged; on
    success they fail with a [LimitError] that carries the computed result,
    the bound and the operation name exactly when the result is above the
    limit (below the floor, for [SubWithFloor]), and return the computed
    result with a nil error otherwise.  [AddWithLimit(10, 30, 30)] fails
    with the limit error carrying 40 and 30. *)
Theorem safeint_bounded_variants (a b bound : Z) :
  (forall v e, Safeint.Add a b = (v, Some e) ->
     Safeint.AddWithLimit a b bound = fail 0 e) /\
  (forall r, Safeint.Add a b = ok r ->
     (bound < r ->
      Safeint.AddWithLimit a b bound =
        fail 0 (LimitError (OfInt64 r) (OfInt64 bound) "addition")) /\
     (r <= bound -> Safeint.AddWithLimit a b bound = ok r)) /\
  (forall v e, Safeint.Sub a b = (v, Some e) ->
     Safeint.SubWithFloor a b bound = fail 0 e) /\
  (forall r, Safeint.Sub a b = ok r ->
     (r < bound ->
      Safeint.SubWithFloor a b bound =
        fail 0 (LimitError (OfInt64 r) (OfInt64 bound) "subtraction floor")) /\
     (bound <= r -> Safeint.SubWithFloor a b bound = ok r)) /\
  (forall v e, Safeint.Mul a b = (v, Some e) ->
     Safeint.MulWithLimit a b bound = fail 0 e) /\
  (forall r, Safeint.Mul a b = ok r ->
     (bound < r ->
      Safeint.MulWithLimit a b bound =
        fail 0 (LimitError (OfInt64 r) (OfInt64 bound) "multiplication")) /\
     (r <= bound -> Safeint.MulWithLimit a b bound = ok r)) /\
  Safeint.AddWithLimit 10 30 30 =
    fail 0 (LimitError (OfInt64 40) (OfInt64 30) "addition") /\
  (forall v l op, Is (LimitError v l op) ErrExceedsLimit = true).
Proof.
  unfold Safeint.AddWithLimit, Safeint.SubWithFloor, Safeint.MulWithLimit,
    NewLimitError, ok.
  repeat split; intros;
    try match goal with
      | H : _ = (_, _) |- _ => rewrite H
      end;
    bool_cases; reflexivity.
Qed.

(** ** Checked unsigned arithmetic *)

Section SafeuintFacts.

Import Uint64 Safeuint.

Lemma uAdd_spec a b :
  in_range a -> in_range b ->
  Add a b = if a + b <=? MaxUint64 then ok (a + b)
            else fail 0 (OverflowError "+" (OfUint64 a) (OfUint64 b)).
Proof.
  intros Ha Hb. unfold Add, NewOverflowError, sub, add.
  int64_bounds. abstract_wraps. bool_cases; close_result.
Qed.

Lemma uSub_spec a b :
  in_range a -> in_range b ->
  Sub a b = if a <? b
            then fail 0 (OverflowError "-" (OfUint64 a) (OfUint64 b))
            else ok (a - b).
Proof.
  intros Ha Hb. unfold Sub, NewOverflowError, sub.
  int64_bounds. abstract_wraps. bool_cases; close_result.
Qed.

Lemma uMul_spec a b :
  in_range a -> in_range b ->
  Mul a b = if a * b <=? MaxUint64 then ok (a * b)
            else fail 0 (OverflowError "*" (OfUint64 a) (OfUint64 b)).
Proof.
  intros Ha Hb. unfold Mul, NewOverflowError, mul, quo.
  destruct (Z.eqb_spec a 0) as [->|Ha0]; [reflexivity|].
  destruct (Z.eqb_spec b 0) as [->|Hb0]; [rewrite Z.mul_0_r; reflexivity|].
  cbn [orb].
  pose proof (quot_lt_iff MaxUint64 a b ltac:(int64_bounds; lia)
                ltac:(int64_bounds; lia)) as Hiff.
  assert (Hp : 0 < a * b) by (apply Z.mul_pos_pos; int64_bounds; lia).
  revert Hiff Hp. generalize (a * b) (Z.quot MaxUint64 b).
  intros p q Hiff Hp.
  int64_bounds. abstract_wraps. bool_cases; close_result.
Qed.

End SafeuintFacts.

(** C8.  For all unsigned 64-bit [a] and [b]: [Add] of package safeuint
    returns [a+b] when it is at most [MaxUint64] (so [Add(MaxUint64, 0)] is
    [MaxUint64]) and the Overflow failure otherwise; [Sub] fails with the
    Overflow failure exactly when [a < b] and returns [a-b] otherwise;
    [Mul] returns 0 when an operand is 0, and otherwise [a*b] when it fits
    and the Overflow failure when it does not. *)
Theorem safeuint_checked_arithmetic (a b : Z) :
  Uint64.in_range a -> Uint64.in_range b ->
  (a + b <= Uint64.MaxUint64 -> Safeuint.Add a b = ok (a + b)) /\
  (Uint64.MaxUint64 < a + b ->
   overflows (Safeuint.Add a b) "+" (OfUint64 a) (OfUint64 b)) /\
  Safeuint.Add Uint64.MaxUint64 0 = ok Uint64.MaxUint64 /\
  (a < b -> overflows (Safeuint.Sub a b) "-" (OfUint64 a) (OfUint64 b)) /\
  (b <= a -> Safeuint.Sub a b = ok (a - b)) /\
  (a = 0 \/ b = 0 -> Safeuint.Mul a b = ok 0) /\
  (a * b <= Uint64.MaxUint64 -> Safeuint.Mul a b = ok (a * b)) /\
  (Uint64.MaxUint64 < a * b ->
   overflows (Safeuint.Mul a b) "*" (OfUint64 a) (OfUint64 b)).
Proof.
  intros Ha Hb. unfold overflows.
  rewrite (uAdd_spec a b Ha Hb), (uSub_spec a b Ha Hb), (uMul_spec a b Ha Hb).
  repeat split; intros;
    try match goal with
      | H : _ \/ _ |- _ =>
          destruct H as [-> | ->]; rewrite ?Z.mul_0_r, ?Z.mul_0_l
      end;
    int64_bounds; bool_cases; reflexivity.
Qed.

Lemma safeuint_checked_arithmetic_witness :
  Uint64.in_range 5 /\ Uint64.in_range 18446744073709551615 /\
  overflows (Safeuint.Add 5 18446744073709551615) "+"
    (OfUint64 5) (OfUint64 18446744073709551615) /\
  overflows (Safeuint.Sub 5 18446744073709551615) "-"
    (OfUint64 5) (OfUint64 18446744073709551615) /\
  overflows (Safeuint.Mul 5 18446744073709551615) "*"
    (OfUint64 5) (OfUint64 18446744073709551615).
Proof.
  assert (Ha : Uint64.in_range 5) by (int64_bounds; lia).
  assert (Hb : Uint64.in_range 18446744073709551615)
    by (int64_bounds; lia).
  destruct (safeuint_checked_arithmetic 5 18446744073709551615 Ha Hb)
    as (_ & HA & _ & HS & _ & _ & _ & HM).
  split; [exact Ha | split; [exact Hb | split; [| split]]].
  - apply HA. int64_bounds. lia.
  - apply HS. lia.
  - apply HM. int64_bounds. lia.
Defined.

(** ** The value returned with a failure *)

Ltac if_cases :=
  repeat match goal with
    | |- context [if ?c then _ else _] => destruct c
    end.

(** C10.  Whenever an operation of package safeint or safeuint returns a
    failure, the number returned with it is 0; on a limit violation the
    computed value travels in the payload of the failure only. *)
Theorem failure_returns_zero (a b bound : Z) :
  (zero_on_failure (Safeint.Add a b) /\
   zero_on_failure (Safeint.Sub a b) /\
   zero_on_failure (Safeint.Mul a b) /\
   zero_on_failure (Safeint.AddWithLimit a b bound) /\
   zero_on_failure (Safeint.SubWithFloor a b bound) /\
   zero_on_failure (Safeint.MulWithLimit a b bound)) /\
  (zero_on_failure (Safeuint.Add a b) /\
   zero_on_failure (Safeuint.Sub a b) /\
   zero_on_failure (Safeuint.Mul a b) /\
   zero_on_failure (Safeuint.AddWithLimit a b bound) /\
   zero_on_failure (Safeuint.SubWithFloor a b bound) /\
   zero_on_failure (Safeuint.MulWithLimit a b bound)) /\
  (limit_payload (Safeint.AddWithLimit a b bound)
     (OfInt64 (fst (Safeint.Add a b))) /\
   limit_payload (Safeint.SubWithFloor a b bound)
     (OfInt64 (fst (Safeint.Sub a b))) /\
   limit_payload (Safeint.MulWithLimit a b bound)
     (OfInt64 (fst (Safeint.Mul a b))) /\
   limit_payload (Safeuint.AddWithLimit a b bound)
     (OfUint64 (fst (Safeuint.Add a b))) /\
   limit_payload (Safeuint.SubWithFloor a b bound)
     (OfUint64 (fst (Safeuint.Sub a b))) /\
   limit_payload (Safeuint.MulWithLimit a b bound)
     (OfUint64 (fst (Safeuint.Mul a b)))).
Proof.
  unfold zero_on_failure, limit_payload.
  unfold Safeint.AddWithLimit, Safeint.SubWithFloor, Safeint.MulWithLimit,
    Safeuint.AddWithLimit, Safeuint.SubWithFloor, Safeuint.MulWithLimit.
  unfold Safeint.Add, Safeint.Sub, Safeint.Mul,
    Safeuint.Add, Safeuint.Sub, Safeuint.Mul,
    NewOverflowError, NewLimitError, ok, fail.
  repeat split; intros *; if_cases; cbn; congruence.
Qed.

(** ** The integer path of the rounding engine *)

(** Truncated division by a positive divisor, by the sign of the dividend. *)
Lemma quot_rem_cases a b :
  0 < b ->
  a = b * Z.quot a b + Z.rem a b /\
  ((0 <= a /\ 0 <= Z.rem a b < b /\ 0 <= Z.quot a b <= a) \/
   (a < 0 /\ - b < Z.rem a b <= 0 /\ a <= Z.quot a b <= 0)).
Proof.
  intros Hb. split; [apply Z.quot_rem'|].
  destruct (Z.le_gt_cases 0 a) as [Ha|Ha]; [left|right].
  - pose proof (Z.rem_bound_pos a b Ha Hb).
    pose proof (quot_nonneg_bounds a b Ha Hb). lia.
  - pose proof (Z.rem_bound_pos_neg a b Hb ltac:(lia)).
    assert (Hq : Z.quot a b = - Z.quot (- a) b).
    { replace a with (- - a) at 1 by lia. apply Z.quot_opp_l. lia. }
    pose proof (quot_nonneg_bounds (- a) b ltac:(lia) Hb). lia.
Qed.

Lemma quo_small a b :
  Int64.in_range a -> 0 < b -> Int64.quo a b = Z.quot a b.
Proof.
  intros Ha Hb. unfold Int64.quo. apply int64_wrap_small.
  destruct (quot_rem_cases a b Hb) as [_ H]. int64_bounds. lia.
Qed.

(** The product of a truncated quotient with its divisor lies between zero
    and the dividend, so it does not wrap. *)
Lemma mul_quot_small a b :
  Int64.in_range a -> 0 < b ->
  Int64.mul (Z.quot a b) b = Z.quot a b * b.
Proof.
  intros Ha Hb. unfold Int64.mul. apply int64_wrap_small.
  destruct (quot_rem_cases a b Hb) as [E H].
  rewrite (Z.mul_comm (Z.quot a b) b). int64_bounds. lia.
Qed.

Section RoundIntFacts.

Import Int64 Rounding.

Ltac unfold_modes :=
  unfold RoundDown, RoundUp, RoundHalfUp, RoundHalfDown, RoundHalfEven,
    RoundCeiling, RoundFloor, defined_mode in *.

(** What the [RoundDown] branch computes below zero. *)
Lemma RoundDown_negative value unit :
  in_range value -> in_range unit -> value < 0 -> 0 < unit ->
  RoundInt64 value unit RoundDown =
    ok (Z.quot (value + unit - 1) unit * unit).
Proof.
  intros Hv Hu Hneg Hpos. unfold RoundInt64. unfold_modes.
  destruct (Z.leb_spec unit 0) as [?|_]; [lia|]. cbn [Z.eqb].
  destruct (Z.geb_spec value 0) as [?|_]; [lia|].
  unfold add, sub.
  rewrite (int64_wrap_small (value + unit)) by (int64_bounds; lia).
  rewrite (int64_wrap_small (value + unit - 1)) by (int64_bounds; lia).
  rewrite quo_small, mul_quot_small by (int64_bounds; lia).
  reflexivity.
Qed.

(** What the [RoundUp] branch computes below zero: the truncation of
    [value] toward zero. *)
Lemma RoundUp_negative value unit :
  in_range value -> in_range unit -> value < 0 -> 0 < unit ->
  RoundInt64 value unit RoundUp = ok (Z.quot value unit * unit).
Proof.
  intros Hv Hu Hneg Hpos. unfold RoundInt64. unfold_modes.
  destruct (Z.leb_spec unit 0) as [?|_]; [lia|]. cbn [Z.eqb Pos.eqb].
  destruct (Z.geb_spec value 0) as [?|_]; [lia|].
  rewrite quo_small, mul_quot_small by (int64_bounds; lia).
  reflexivity.
Qed.

(** Below zero, with a unit of at least two, the [RoundDown] branch moves
    every aligned value one unit toward zero. *)
Lemma RoundDown_negative_aligned value unit :
  in_range value -> in_range unit -> value < 0 -> 2 <= unit ->
  Z.rem value unit = 0 ->
  RoundInt64 value unit RoundDown = ok (value + unit).
Proof.
  intros Hv Hu Hneg Hpos Hal.
  rewrite RoundDown_negative by (assumption || lia).
  destruct (quot_rem_cases value unit ltac:(lia)) as [E _].
  rewrite Hal, Z.add_0_r in E. set (k := Z.quot value unit) in *.
  assert (Hq : Z.quot (value + unit - 1) unit = k + 1).
  { replace (value + unit - 1) with (- (unit * (- (k + 1)) + 1)) by lia.
    rewrite Z.quot_opp_l by lia.
    assert (Hk : k + 1 <= 0).
    { destruct (Z.le_gt_cases (k + 1) 0) as [?|Hk]; [assumption|].
      assert (unit * 0 <= unit * k) by (apply Z.mul_le_mono_nonneg_l; lia).
      lia. }
    assert (0 <= unit * (- (k + 1)))
      by (apply Z.mul_nonneg_nonneg; lia).
    rewrite <- (Z.quot_unique (unit * (- (k + 1)) + 1) unit (- (k + 1)) 1);
      lia. }
  rewrite Hq. unfold ok. f_equal. lia.
Qed.

(** Where the two branches are sound: [RoundDown] from zero upward and
    [RoundUp] below zero return an aligned value as it is. *)
Lemma RoundDown_Up_aligned value unit :
  in_range value -> in_range unit -> 0 < unit -> Z.rem value unit = 0 ->
  (0 <= value -> RoundInt64 value unit RoundDown = ok value) /\
  (value < 0 -> RoundInt64 value unit RoundUp = ok value).
Proof.
  intros Hv Hu Hpos Hal.
  destruct (quot_rem_cases value unit Hpos) as [E _].
  rewrite Hal, Z.add_0_r in E.
  split; intros Hs.
  - unfold RoundInt64. unfold_modes.
    destruct (Z.leb_spec unit 0) as [?|_]; [lia|]. cbn [Z.eqb].
    destruct (Z.geb_spec value 0) as [_|?]; [|lia].
    rewrite quo_small, mul_quot_small by assumption.
    unfold ok. f_equal. lia.
  - rewrite RoundUp_negative by assumption. unfold ok. f_equal. lia.
Qed.

(** [RoundCeiling] and [RoundFloor] test alignment first, and return an
    aligned value as it is. *)
Lemma RoundCeiling_Floor_aligned value unit :
  0 < unit -> Z.rem value unit = 0 ->
  RoundInt64 value unit RoundCeiling = ok value /\
  RoundInt64 value unit RoundFloor = ok value.
Proof.
  intros Hpos Hal. unfold RoundInt64, rem. unfold_modes.
  destruct (Z.leb_spec unit 0) as [?|_]; [lia|]. cbn [Z.eqb Pos.eqb].
  rewrite Hal. split; reflexivity.
Qed.

(** On ties [RoundHalfEven] picks the multiple with the even quotient,
    as long as that multiple is an [int64]. *)
Lemma HalfEven_tie value unit q :
  in_range value -> in_range unit -> 0 < unit ->
  2 * Z.abs (Z.rem value unit) = unit ->
  Z.even q = true -> 2 * Z.abs (q * unit - value) = unit ->
  in_range (q * unit) ->
  RoundInt64 value unit RoundHalfEven = ok (q * unit).
Proof.
  intros Hv Hu Hpos Hhalf Hev Hnear Hfit.
  unfold RoundInt64. unfold_modes.
  destruct (Z.leb_spec unit 0) as [?|_]; [lia|].
  cbn [Z.eqb Pos.eqb].
  rewrite (quo_small unit 2 Hu ltac:(lia)), (quo_small value unit Hv Hpos).
  unfold rem, neg.
  destruct (quot_rem_cases value unit Hpos) as [E Hs].
  destruct (quot_rem_cases unit 2 ltac:(lia)) as [E2 _].
  set (r := Z.rem value unit) in *. set (k := Z.quot value unit) in *.
  set (h := Z.quot unit 2) in *.
  assert (Hr2 : Z.rem unit 2 = 0).
  { rewrite <- Hhalf. rewrite Z.mul_comm. apply Z.rem_mul. lia. }
  assert (Hh : unit = 2 * h) by lia.
  apply Z.even_spec in Hev. destruct Hev as [q' Hq'].
  destruct (quot_rem_cases k 2 ltac:(lia)) as [Ek Hks].
  assert (Hqk : q = k \/ q = k + 1 \/ q = k - 1).
  { assert (Hd : (q - k) * unit = 0 * unit \/
                 (q - k) * unit = 1 * unit \/
                 (q - k) * unit = (-1) * unit) by lia.
    destruct Hd as [Hd|[Hd|Hd]]; apply Z.mul_reg_r in Hd; lia. }
  assert (Hwh : wrap (- h) = - h)
    by (apply int64_wrap_small; int64_bounds; lia).
  rewrite Hwh.
  assert (Hcond : (r =? h) || (r =? - h) = true).
  { apply orb_true_iff. rewrite !Z.eqb_eq. lia. }
  rewrite Hcond.
  assert (Hk2 : 0 <= k -> 2 * k <= unit * k).
  { intros. apply Z.mul_le_mono_nonneg_r; lia. }
  assert (Hk2' : k <= 0 -> unit * k <= 2 * k).
  { intros. apply Z.mul_le_mono_nonpos_r; lia. }
  destruct (Z.eqb_spec (Z.rem k 2) 0) as [Hk0|Hk0].
  - assert (Hq : q = k) by lia. rewrite Hq in Hfit |- *.
    unfold mul. rewrite int64_wrap_small by exact Hfit. reflexivity.
  - destruct (Z.geb_spec k 0) as [Hk|Hk].
    + assert (Hq : q = k + 1).
      { destruct Hqk as [Hq|[Hq|Hq]]; [lia|lia|].
        rewrite Hq in Hnear. lia. }
      rewrite Hq in Hfit |- *. unfold mul, add.
      rewrite (int64_wrap_small (k + 1)) by (int64_bounds; lia).
      rewrite int64_wrap_small by exact Hfit. reflexivity.
    + assert (Hq : q = k - 1).
      { destruct Hqk as [Hq|[Hq|Hq]]; [lia| |lia].
        rewrite Hq in Hnear. lia. }
      rewrite Hq in Hfit |- *. unfold mul, sub.
      rewrite (int64_wrap_small (k - 1)) by (int64_bounds; lia).
      rewrite int64_wrap_small by exact Hfit. reflexivity.
Qed.

(** With a positive unit, a mode outside the seven constants reaches the
    default arm of the switch. *)
Lemma RoundInt64_default value unit mode :
  0 < unit -> ~ defined_mode mode ->
  RoundInt64 value unit mode = fail 0 ErrInvalidRounding.
Proof.
  intros Hpos Hm. unfold RoundInt64. unfold_modes.
  destruct (Z.leb_spec unit 0) as [?|_]; [lia|].
  destruct (Z.eqb_spec mode 0); [lia|].
  destruct (Z.eqb_spec mode 1); [lia|].
  destruct (Z.eqb_spec mode 2); [lia|].
  destruct (Z.eqb_spec mode 3); [lia|].
  destruct (Z.eqb_spec mode 4); [lia|].
  destruct (Z.eqb_spec mode 5); [lia|].
  destruct (Z.eqb_spec mode 6); [lia|].
  reflexivity.
Qed.

Lemma RoundInt64_bad_unit value unit mode :
  unit <= 0 -> RoundInt64 value unit mode = fail 0 ErrInvalidPrecision.
Proof.
  intros Hu. unfold RoundInt64.
  destruct (Z.leb_spec unit 0) as [_|?]; [reflexivity|lia].
Qed.

End RoundIntFacts.

(** ** The floating-point path of the rounding engine *)

Section RoundFloatFacts.

Import Float64 Rounding.

Lemma RoundFloat64_bad_decimals value decimals mode :
  decimals < 0 ->
  RoundFloat64 value decimals mode = (zero, Some ErrInvalidPrecision).
Proof.
  intros Hd. unfold RoundFloat64.
  destruct (Z.ltb_spec decimals 0) as [_|?]; [reflexivity|lia].
Qed.

Lemma RoundFloat64_special value decimals mode :
  0 <= decimals -> IsNaN value || IsInf value = true ->
  RoundFloat64 value decimals mode = (value, None).
Proof.
  intros Hd Hs. unfold RoundFloat64.
  destruct (Z.ltb_spec decimals 0) as [?|_]; [lia|].
  rewrite Hs. reflexivity.
Qed.

Lemma RoundFloat64_default value decimals mode :
  0 <= decimals -> IsNaN value || IsInf value = false ->
  ~ defined_mode mode ->
  RoundFloat64 value decimals mode = (zero, Some ErrInvalidRounding).
Proof.
  intros Hd Hs Hm. unfold RoundFloat64.
  destruct (Z.ltb_spec decimals 0) as [?|_]; [lia|].
  rewrite Hs.
  unfold RoundDown, RoundUp, RoundHalfUp, RoundHalfDown, RoundHalfEven,
    RoundCeiling, RoundFloor, defined_mode in *.
  destruct (Z.eqb_spec mode 0); [lia|].
  destruct (Z.eqb_spec mode 1); [lia|].
  destruct (Z.eqb_spec mode 2); [lia|].
  destruct (Z.eqb_spec mode 3); [lia|].
  destruct (Z.eqb_spec mode 4); [lia|].
  destruct (Z.eqb_spec mode 5); [lia|].
  destruct (Z.eqb_spec mode 6); [lia|].
  reflexivity.
Qed.

End RoundFloatFacts.

(** ** Properties of the rounding engine *)

(** C2.  Rounding an aligned value is expected to return it unchanged under
    every mode.  The code does not: [-150] is a multiple of [10], and
    [RoundInt64(-150, 10, RoundDown)] is [-140]; [3] is a multiple of [1],
    and [RoundInt64(3, 1, RoundHalfEven)] is [4]; on the floating-point path
    the largest finite value is an integer, and rounding it down to one
    decimal gives positive infinity; and the [float64] just below [0.1]
    has the scaled value [10] at two decimals, and is rounded to [0.1]. *)
Theorem aligned_value_not_fixed :
  (Z.rem (-150) 10 = 0 /\
   Rounding.RoundInt64 (-150) 10 Rounding.RoundDown = ok (-140)) /\
  (Z.rem 3 1 = 0 /\
   Rounding.RoundInt64 3 1 Rounding.RoundHalfEven = ok 4) /\
  Rounding.RoundFloat64 MaxFloat64 1 Rounding.RoundDown =
    (Float64.Inf false, None) /\
  (Float64.fmul below_tenth (Float64.Pow10 2) = Float64.of_Z 10 /\
   Rounding.RoundFloat64 below_tenth 2 Rounding.RoundDown =
     (Float64.of_ratio 1 10, None) /\
   Float64.feqb below_tenth (Float64.of_ratio 1 10) = false).
Proof.
  repeat split; vm_compute; reflexivity.
Qed.

(** C3.  [RoundDown] is expected to truncate a negative value toward zero,
    [-155] with unit [10] giving [-150].  The code returns [-140]. *)
Theorem RoundDown_negative_155 :
  Rounding.RoundInt64 (-155) 10 Rounding.RoundDown = ok (-140) /\
  Z.quot (-155) 10 * 10 = -150.
Proof.
  split; vm_compute; reflexivity.
Qed.

(** C4.  [RoundUp] is expected to round a negative value away from zero,
    [-155] with unit [10] giving [-160].  The code returns [-150], the
    adjacent multiple of smaller magnitude. *)
Theorem RoundUp_negative_155 :
  Rounding.RoundInt64 (-155) 10 Rounding.RoundUp = ok (-150) /\
  Z.abs (-150) < Z.abs (-155) < Z.abs (-160).
Proof.
  split; [vm_compute; reflexivity | lia].
Qed.

(** C5, counterexample.  With the unrecognized mode [99], a zero unit or a
    negative number of decimals yields the precision failure, and NaN is
    handed back with a nil error: the InvalidRoundingMode failure is not
    returned. *)
Lemma invalid_mode_not_always_reported :
  ~ Rounding.defined_mode 99 /\
  Rounding.RoundInt64 155 0 99 = fail 0 ErrInvalidPrecision /\
  Rounding.RoundFloat64 (Float64.of_ratio 10555 1000) (-1) 99 =
    (Float64.zero, Some ErrInvalidPrecision) /\
  Rounding.RoundFloat64 Float64.NaN 2 99 = (Float64.NaN, None) /\
  Is ErrInvalidPrecision ErrInvalidRounding = false.
Proof.
  split; [unfold Rounding.defined_mode; lia|].
  repeat split; vm_compute; reflexivity.
Qed.

(** C5, amended.  A mode outside the seven constants yields the
    InvalidRoundingMode failure from [RoundInt64] whenever the unit is
    positive, and from [RoundFloat64] whenever the number of decimals is not
    negative and the value is finite.  The precision check comes first: a
    non-positive unit or a negative number of decimals yields the
    InvalidPrecision failure; and with non-negative decimals NaN and the
    infinities are returned unchanged with a nil error. *)
Theorem invalid_mode_after_guards
  (value unit decimals : Z) (fvalue : Float64.float64) (mode : Rounding.Mode) :
  ~ Rounding.defined_mode mode ->
  (0 < unit ->
   Rounding.RoundInt64 value unit mode = fail 0 ErrInvalidRounding) /\
  (unit <= 0 ->
   Rounding.RoundInt64 value unit mode = fail 0 ErrInvalidPrecision) /\
  (0 <= decimals ->
   Float64.IsNaN fvalue || Float64.IsInf fvalue = false ->
   Rounding.RoundFloat64 fvalue decimals mode =
     (Float64.zero, Some ErrInvalidRounding)) /\
  (decimals < 0 ->
   Rounding.RoundFloat64 fvalue decimals mode =
     (Float64.zero, Some ErrInvalidPrecision)) /\
  (0 <= decimals ->
   Float64.IsNaN fvalue || Float64.IsInf fvalue = true ->
   Rounding.RoundFloat64 fvalue decimals mode = (fvalue, None)).
Proof.
  intros Hm. repeat split; intros.
  - apply RoundInt64_default; assumption.
  - apply RoundInt64_bad_unit; assumption.
  - apply RoundFloat64_default; assumption.
  - apply RoundFloat64_bad_decimals; assumption.
  - apply RoundFloat64_special; assumption.
Qed.

Lemma invalid_mode_after_guards_witness :
  ~ Rounding.defined_mode 99 /\
  Rounding.RoundInt64 155 10 99 = fail 0 ErrInvalidRounding /\
  Rounding.RoundFloat64 (Float64.of_ratio 10555 1000) 2 99 =
    (Float64.zero, Some ErrInvalidRounding).
Proof.
  assert (Hm : ~ Rounding.defined_mode 99)
    by (unfold Rounding.defined_mode; lia).
  destruct (invalid_mode_after_guards 155 10 2
              (Float64.of_ratio 10555 1000) 99 Hm) as (HI & _ & HF & _).
  split; [exact Hm | split].
  - apply HI. lia.
  - apply HF; [lia | reflexivity].
Defined.

(** C6, counterexample.  [MaxInt64] is a tie for the unit [2], and the
    code returns [MinInt64], which is not the neighbouring multiple with an
    even quotient. *)
Lemma HalfEven_tie_wraps :
  Int64.in_range Int64.MaxInt64 /\ 0 < 2 /\ exact_half Int64.MaxInt64 2 /\
  Rounding.RoundInt64 Int64.MaxInt64 2 Rounding.RoundHalfEven =
    ok Int64.MinInt64 /\
  ~ even_neighbour Int64.MaxInt64 2 Int64.MinInt64.
Proof.
  split; [int64_bounds; lia|]. split; [lia|].
  split; [reflexivity|]. split; [vm_compute; reflexivity|].
  intros (q & _ & _ & H). vm_compute in H. discriminate H.
Qed.

(** C6, amended.  For every [int64] value and unit [> 0] such that the
    value lies exactly halfway between two adjacent multiples of the unit,
    [RoundInt64] under [RoundHalfEven] returns the neighbouring multiple
    whose quotient by the unit is even, provided that multiple is an
    [int64]; [RoundInt64(150, 20)] and [RoundInt64(170, 20)] are both
    [160]. *)
Theorem HalfEven_parity (value unit m : Z) :
  Int64.in_range value -> Int64.in_range unit -> 0 < unit ->
  exact_half value unit ->
  even_neighbour value unit m -> Int64.in_range m ->
  Rounding.RoundInt64 value unit Rounding.RoundHalfEven = ok m /\
  Rounding.RoundInt64 150 20 Rounding.RoundHalfEven = ok 160 /\
  Rounding.RoundInt64 170 20 Rounding.RoundHalfEven = ok 160.
Proof.
  intros Hv Hu Hpos Hhalf (q & Hev & -> & Hnear) Hfit.
  split; [|split; vm_compute; reflexivity].
  apply HalfEven_tie; assumption.
Qed.

Lemma HalfEven_parity_witness :
  exact_half (-150) 20 /\ even_neighbour (-150) 20 (-160) /\
  Rounding.RoundInt64 (-150) 20 Rounding.RoundHalfEven = ok (-160).
Proof.
  assert (Hh : exact_half (-150) 20) by reflexivity.
  assert (Hn : even_neighbour (-150) 20 (-160)).
  { exists (-8). repeat split. }
  split; [exact Hh | split; [exact Hn|]].
  apply (HalfEven_parity (-150) 20 (-160)); try assumption;
    try (int64_bounds; lia); lia.
Defined.

(** C9.  For every number of decimals [>= 0] and every mode value,
    [RoundFloat64] returns NaN, positive infinity and negative infinity
    unchanged, with a nil error. *)
Theorem RoundFloat64_special_values (decimals : Z) (mode : Rounding.Mode) :
  0 <= decimals ->
  Rounding.RoundFloat64 Float64.NaN decimals mode = (Float64.NaN, None) /\
  Rounding.RoundFloat64 (Float64.Inf false) decimals mode =
    (Float64.Inf false, None) /\
  Rounding.RoundFloat64 (Float64.Inf true) decimals mode =
    (Float64.Inf true, None).
Proof.
  intros Hd. repeat split; apply RoundFloat64_special; auto.
Qed.

Lemma RoundFloat64_special_values_witness :
  0 <= 2 /\
  Rounding.RoundFloat64 Float64.NaN 2 99 = (Float64.NaN, None) /\
  Rounding.RoundFloat64 (Float64.Inf false) 2 99 = (Float64.Inf false, None) /\
  Rounding.RoundFloat64 (Float64.Inf true) 2 99 = (Float64.Inf true, None).
Proof.
  split; [lia|]. apply (RoundFloat64_special_values 2 99). lia.
Defined.

(** * Further properties of the packages *)

Lemma RoundDown_negative_aligned_witness :
  Z.rem (-150) 10 = 0 /\
  Rounding.RoundInt64 (-150) 10 Rounding.RoundDown = ok (-150 + 10).
Proof.
  split; [reflexivity|].
  apply (RoundDown_negative_aligned (-150) 10);
    try (int64_bounds; lia); try lia; reflexivity.
Defined.

Lemma ok_inj v w : ok v = ok w -> v = w.
Proof. unfold ok. congruence. Qed.

Lemma int64_in_rangeb_true z : Int64.in_range z -> Int64.in_rangeb z = true.
Proof. intros H. destruct (int64_in_rangeb_spec z); [reflexivity|contradiction]. Qed.

Lemma int64_in_rangeb_false z : ~ Int64.in_range z -> Int64.in_rangeb z = false.
Proof. intros H. destruct (int64_in_rangeb_spec z); [contradiction|reflexivity]. Qed.

(** Success of a checked signed operation, in terms of the exact result. *)
Lemma safeint_ok_inv a b c :
  Int64.in_range a -> Int64.in_range b ->
  (Safeint.Add a b = ok c -> c = a + b /\ Int64.in_range c) /\
  (Safeint.Sub a b = ok c -> c = a - b /\ Int64.in_range c) /\
  (Safeint.Mul a b = ok c -> c = a * b /\ Int64.in_range c).
Proof.
  intros Ha Hb.
  rewrite (Add_spec a b Ha Hb), (Sub_spec a b Ha Hb), (Mul_spec a b Ha Hb).
  destruct (int64_in_rangeb_spec (a + b)), (int64_in_rangeb_spec (a - b)),
    (int64_in_rangeb_spec (a * b));
    (split; [|split]); intros Heq; try discriminate Heq;
    apply ok_inj in Heq; subst; auto.
Qed.

(** Checked signed addition and subtraction undo each other: when
    [Add(a, b)] succeeds with [c], [Sub(c, b)] returns [a] and [Sub(c, a)]
    returns [b]; when [Sub(a, b)] succeeds with [c], [Add(c, b)] returns
    [a] and [Sub(a, c)] returns [b]. *)
Theorem safeint_add_sub_inverse (a b : Z) :
  Int64.in_range a -> Int64.in_range b ->
  (forall c, Safeint.Add a b = ok c ->
     Safeint.Sub c b = ok a /\ Safeint.Sub c a = ok b) /\
  (forall c, Safeint.Sub a b = ok c ->
     Safeint.Add c b = ok a /\ Safeint.Sub a c = ok b).
Proof.
  intros Ha Hb. split; intros c Hc.
  - destruct (safeint_ok_inv a b c Ha Hb) as (HA & _ & _).
    destruct (HA Hc) as [Hcv Hcr]. clear HA Hc. subst c. rename Hcr into Hc.
    rewrite (Sub_spec (a + b) b Hc Hb), (Sub_spec (a + b) a Hc Ha).
    replace (a + b - b) with a by lia. replace (a + b - a) with b by lia.
    rewrite !int64_in_rangeb_true by assumption. auto.
  - destruct (safeint_ok_inv a b c Ha Hb) as (_ & HS & _).
    destruct (HS Hc) as [Hcv Hcr]. clear HS Hc. subst c. rename Hcr into Hc.
    rewrite (Add_spec (a - b) b Hc Hb), (Sub_spec a (a - b) Ha Hc).
    replace (a - b + b) with a by lia. replace (a - (a - b)) with b by lia.
    rewrite !int64_in_rangeb_true by assumption. auto.
Qed.

Lemma safeint_add_sub_inverse_witness :
  Int64.in_range 9223372036854775800 /\ Int64.in_range 7 /\
  Safeint.Sub 9223372036854775807 7 = ok 9223372036854775800.
Proof.
  assert (Ha : Int64.in_range 9223372036854775800) by (int64_bounds; lia).
  assert (Hb : Int64.in_range 7) by (int64_bounds; lia).
  split; [exact Ha | split; [exact Hb|]].
  apply (proj1 (safeint_add_sub_inverse 9223372036854775800 7 Ha Hb)
           9223372036854775807).
  reflexivity.
Defined.

(** [Add] and [Mul] of package safeint do not depend on the order of the
    operands: both orders return the same number, and one fails exactly
    when the other does. *)
Theorem safeint_add_mul_commute (a b : Z) :
  Int64.in_range a -> Int64.in_range b ->
  (fst (Safeint.Add a b) = fst (Safeint.Add b a) /\
   (snd (Safeint.Add a b) = None <-> snd (Safeint.Add b a) = None)) /\
  (fst (Safeint.Mul a b) = fst (Safeint.Mul b a) /\
   (snd (Safeint.Mul a b) = None <-> snd (Safeint.Mul b a) = None)).
Proof.
  intros Ha Hb.
  rewrite (Add_spec a b Ha Hb), (Add_spec b a Hb Ha),
    (Mul_spec a b Ha Hb), (Mul_spec b a Hb Ha).
  rewrite (Z.add_comm b a), (Z.mul_comm b a).
  destruct (Int64.in_rangeb (a + b)), (Int64.in_rangeb (a * b));
    cbn; repeat split; intros; congruence.
Qed.

Lemma safeint_add_mul_commute_witness :
  Int64.in_range 9223372036854775807 /\ Int64.in_range 2 /\
  fst (Safeint.Mul 9223372036854775807 2) =
    fst (Safeint.Mul 2 9223372036854775807).
Proof.
  assert (Ha : Int64.in_range 9223372036854775807) by (int64_bounds; lia).
  assert (Hb : Int64.in_range 2) by (int64_bounds; lia).
  split; [exact Ha | split; [exact Hb|]].
  exact (proj1 (proj2 (safeint_add_mul_commute 9223372036854775807 2 Ha Hb))).
Defined.

(** Negation through the checked operations: [Sub(0, a)], [Mul(a, -1)] and
    [Mul(-1, a)] return [-a] for every [int64] but [MinInt64], where all
    three fail with the overflow error. *)
Theorem safeint_negation (a : Z) :
  Int64.in_range a ->
  (a <> Int64.MinInt64 ->
   Safeint.Sub 0 a = ok (- a) /\ Safeint.Mul a (-1) = ok (- a) /\
   Safeint.Mul (-1) a = ok (- a)) /\
  (a = Int64.MinInt64 ->
   overflows (Safeint.Sub 0 a) "-" (OfInt64 0) (OfInt64 a) /\
   overflows (Safeint.Mul a (-1)) "*" (OfInt64 a) (OfInt64 (-1)) /\
   overflows (Safeint.Mul (-1) a) "*" (OfInt64 (-1)) (OfInt64 a)).
Proof.
  intros Ha.
  assert (H0 : Int64.in_range 0) by (int64_bounds; lia).
  assert (H1 : Int64.in_range (-1)) by (int64_bounds; lia).
  rewrite (Sub_spec 0 a H0 Ha), (Mul_spec a (-1) Ha H1),
    (Mul_spec (-1) a H1 Ha).
  replace (0 - a) with (- a) by lia. replace (a * -1) with (- a) by lia.
  replace (-1 * a) with (- a) by lia.
  split; intros Hm.
  - rewrite int64_in_rangeb_true by (int64_bounds; lia). auto.
  - rewrite int64_in_rangeb_false by (int64_bounds; lia).
    unfold overflows. auto.
Qed.

Lemma safeint_negation_witness :
  Int64.in_range (-9223372036854775808) /\
  overflows (Safeint.Mul (-9223372036854775808) (-1)) "*"
    (OfInt64 (-9223372036854775808)) (OfInt64 (-1)).
Proof.
  assert (Ha : Int64.in_range (-9223372036854775808))
    by (int64_bounds; lia).
  split; [exact Ha|].
  exact (proj1 (proj2 (proj2 (safeint_negation (-9223372036854775808) Ha)
                         eq_refl))).
Defined.

(** The bounded signed variants succeed exactly on the exact result: the
    value returned with a nil error is the mathematical sum, difference or
    product, it is an [int64], and it is within the bound; and every such
    result is returned. *)
Theorem safeint_bounded_success (a b bound r : Z) :
  Int64.in_range a -> Int64.in_range b ->
  (Safeint.AddWithLimit a b bound = ok r <->
   r = a + b /\ Int64.in_range r /\ r <= bound) /\
  (Safeint.SubWithFloor a b bound = ok r <->
   r = a - b /\ Int64.in_range r /\ bound <= r) /\
  (Safeint.MulWithLimit a b bound = ok r <->
   r = a * b /\ Int64.in_range r /\ r <= bound).
Proof.
  intros Ha Hb.
  unfold Safeint.AddWithLimit, Safeint.SubWithFloor, Safeint.MulWithLimit.
  rewrite (Add_spec a b Ha Hb), (Sub_spec a b Ha Hb), (Mul_spec a b Ha Hb).
  unfold NewLimitError, ok, fail.
  destruct (int64_in_rangeb_spec (a + b)), (int64_in_rangeb_spec (a - b)),
    (int64_in_rangeb_spec (a * b));
    (split; [|split]); bool_cases;
    (split; [intros Heq; inversion Heq; subst; auto with zarith
            | intros (-> & Hr & Hbd); first [reflexivity | contradiction | lia]]).
Qed.

Lemma safeint_bounded_success_witness :
  Int64.in_range 10 /\ Int64.in_range 30 /\
  Safeint.AddWithLimit 10 30 40 = ok 40.
Proof.
  assert (Ha : Int64.in_range 10) by (int64_bounds; lia).
  assert (Hb : Int64.in_range 30) by (int64_bounds; lia).
  split; [exact Ha | split; [exact Hb|]].
  apply (proj1 (safeint_bounded_success 10 30 40 40 Ha Hb)).
  split; [reflexivity | split; [int64_bounds; lia | lia]].
Defined.

(** The two failures of the bounded signed variants do not overlap: the
    error is of the overflow kind when the exact result is not an [int64],
    and of the limit kind when it is an [int64] beyond the bound. *)
Theorem safeint_bounded_failure (a b bound : Z) (e : error) :
  Int64.in_range a -> Int64.in_range b ->
  (snd (Safeint.AddWithLimit a b bound) = Some e ->
   (Is e ErrOverflow = true /\ ~ Int64.in_range (a + b)) \/
   (Is e ErrExceedsLimit = true /\ Int64.in_range (a + b) /\ bound < a + b)) /\
  (snd (Safeint.SubWithFloor a b bound) = Some e ->
   (Is e ErrOverflow = true /\ ~ Int64.in_range (a - b)) \/
   (Is e ErrExceedsLimit = true /\ Int64.in_range (a - b) /\ a - b < bound)) /\
  (snd (Safeint.MulWithLimit a b bound) = Some e ->
   (Is e ErrOverflow = true /\ ~ Int64.in_range (a * b)) \/
   (Is e ErrExceedsLimit = true /\ Int64.in_range (a * b) /\ bound < a * b)).
Proof.
  intros Ha Hb.
  unfold Safeint.AddWithLimit, Safeint.SubWithFloor, Safeint.MulWithLimit.
  rewrite (Add_spec a b Ha Hb), (Sub_spec a b Ha Hb), (Mul_spec a b Ha Hb).
  unfold NewLimitError, ok, fail.
  destruct (int64_in_rangeb_spec (a + b)), (int64_in_rangeb_spec (a - b)),
    (int64_in_rangeb_spec (a * b));
    (split; [|split]); bool_cases; cbn [snd]; intros Heq;
    try discriminate Heq; inversion Heq; subst e;
    first [ left; split; [reflexivity | assumption]
          | right; split; [reflexivity | split; [assumption | lia]] ].
Qed.

Lemma safeint_bounded_failure_witness :
  Int64.in_range 10 /\ Int64.in_range 30 /\
  ((Is (LimitError (OfInt64 40) (OfInt64 30) "addition") ErrOverflow = true /\
    ~ Int64.in_range (10 + 30)) \/
   (Is (LimitError (OfInt64 40) (OfInt64 30) "addition") ErrExceedsLimit
      = true /\ Int64.in_range (10 + 30) /\ 30 < 10 + 30)).
Proof.
  assert (Ha : Int64.in_range 10) by (int64_bounds; lia).
  assert (Hb : Int64.in_range 30) by (int64_bounds; lia).
  split; [exact Ha | split; [exact Hb|]].
  apply (proj1 (safeint_bounded_failure 10 30 30
                  (LimitError (OfInt64 40) (OfInt64 30) "addition") Ha Hb)).
  reflexivity.
Defined.

Lemma uint64_ok_inv a b c :
  Uint64.in_range a -> Uint64.in_range b ->
  (Safeuint.Add a b = ok c -> c = a + b /\ Uint64.in_range c) /\
  (Safeuint.Sub a b = ok c -> c = a - b /\ Uint64.in_range c) /\
  (Safeuint.Mul a b = ok c -> c = a * b /\ Uint64.in_range c).
Proof.
  intros Ha Hb.
  rewrite (uAdd_spec a b Ha Hb), (uSub_spec a b Ha Hb), (uMul_spec a b Ha Hb).
  assert (0 <= a * b) by (apply Z.mul_nonneg_nonneg; int64_bounds; lia).
  (split; [|split]); int64_bounds; bool_cases; intros Heq;
    try discriminate Heq; apply ok_inj in Heq; subst; lia.
Qed.

(** Checked unsigned addition and subtraction undo each other. *)
Theorem safeuint_add_sub_inverse (a b : Z) :
  Uint64.in_range a -> Uint64.in_range b ->
  (forall c, Safeuint.Add a b = ok c ->
     Safeuint.Sub c b = ok a /\ Safeuint.Sub c a = ok b) /\
  (forall c, Safeuint.Sub a b = ok c ->
     Safeuint.Add c b = ok a /\ Safeuint.Sub a c = ok b).
Proof.
  intros Ha Hb. split; intros c Hc.
  - destruct (uint64_ok_inv a b c Ha Hb) as (HA & _ & _).
    destruct (HA Hc) as [Hcv Hcr]. clear HA Hc. subst c.
    rewrite (uSub_spec (a + b) b Hcr Hb), (uSub_spec (a + b) a Hcr Ha).
    int64_bounds. bool_cases. split; unfold ok; f_equal; lia.
  - destruct (uint64_ok_inv a b c Ha Hb) as (_ & HS & _).
    destruct (HS Hc) as [Hcv Hcr]. clear HS Hc. subst c.
    rewrite (uAdd_spec (a - b) b Hcr Hb), (uSub_spec a (a - b) Ha Hcr).
    int64_bounds. bool_cases. split; unfold ok; f_equal; lia.
Qed.

Lemma safeuint_add_sub_inverse_witness :
  Uint64.in_range 18446744073709551615 /\ Uint64.in_range 5 /\
  Safeuint.Add 18446744073709551610 5 = ok 18446744073709551615.
Proof.
  assert (Ha : Uint64.in_range 18446744073709551615) by (int64_bounds; lia).
  assert (Hb : Uint64.in_range 5) by (int64_bounds; lia).
  split; [exact Ha | split; [exact Hb|]].
  apply (proj2 (safeuint_add_sub_inverse 18446744073709551615 5 Ha Hb)
           18446744073709551610).
  reflexivity.
Defined.

(** The bounded unsigned variants succeed exactly on the exact result:
    the value returned with a nil error is the mathematical sum, difference
    or product, it is a [uint64], and it is within the bound. *)
Theorem safeuint_bounded_success (a b bound r : Z) :
  Uint64.in_range a -> Uint64.in_range b ->
  (Safeuint.AddWithLimit a b bound = ok r <->
   r = a + b /\ r <= Uint64.MaxUint64 /\ r <= bound) /\
  (Safeuint.SubWithFloor a b bound = ok r <->
   r = a - b /\ 0 <= r /\ bound <= r) /\
  (Safeuint.MulWithLimit a b bound = ok r <->
   r = a * b /\ r <= Uint64.MaxUint64 /\ r <= bound).
Proof.
  intros Ha Hb.
  unfold Safeuint.AddWithLimit, Safeuint.SubWithFloor, Safeuint.MulWithLimit.
  rewrite (uAdd_spec a b Ha Hb), (uSub_spec a b Ha Hb), (uMul_spec a b Ha Hb).
  unfold NewLimitError, ok, fail. int64_bounds.
  (split; [|split]); bool_cases; bool_cases;
    (split; [intros Heq; inversion Heq; subst; lia
            | intros (-> & Hr & Hbd); first [reflexivity | lia]]).
Qed.

Lemma safeuint_bounded_success_witness :
  Uint64.in_range 50 /\ Uint64.in_range 20 /\
  Safeuint.SubWithFloor 50 20 30 = ok 30.
Proof.
  assert (Ha : Uint64.in_range 50) by (int64_bounds; lia).
  assert (Hb : Uint64.in_range 20) by (int64_bounds; lia).
  split; [exact Ha | split; [exact Hb|]].
  apply (proj1 (proj2 (safeuint_bounded_success 50 20 30 30 Ha Hb))).
  lia.
Defined.

(** The failures of the bounded unsigned variants: the overflow kind when
    the exact result is not a [uint64] (for [SubWithFloor], when [a < b]),
    the limit kind when it is a [uint64] beyond the bound. *)
Theorem safeuint_bounded_failure (a b bound : Z) (e : error) :
  Uint64.in_range a -> Uint64.in_range b ->
  (snd (Safeuint.AddWithLimit a b bound) = Some e ->
   (Is e ErrOverflow = true /\ Uint64.MaxUint64 < a + b) \/
   (Is e ErrExceedsLimit = true /\ a + b <= Uint64.MaxUint64 /\
    bound < a + b)) /\
  (snd (Safeuint.SubWithFloor a b bound) = Some e ->
   (Is e ErrOverflow = true /\ a < b) \/
   (Is e ErrExceedsLimit = true /\ b <= a /\ a - b < bound)) /\
  (snd (Safeuint.MulWithLimit a b bound) = Some e ->
   (Is e ErrOverflow = true /\ Uint64.MaxUint64 < a * b) \/
   (Is e ErrExceedsLimit = true /\ a * b <= Uint64.MaxUint64 /\
    bound < a * b)).
Proof.
  intros Ha Hb.
  unfold Safeuint.AddWithLimit, Safeuint.SubWithFloor, Safeuint.MulWithLimit.
  rewrite (uAdd_spec a b Ha Hb), (uSub_spec a b Ha Hb), (uMul_spec a b Ha Hb).
  unfold NewLimitError, ok, fail. int64_bounds.
  (split; [|split]); bool_cases; bool_cases; cbn [snd]; intros Heq;
    try discriminate Heq; inversion Heq; subst e;
    first [ left; split; [reflexivity | lia]
          | right; split; [reflexivity | lia] ].
Qed.

Lemma safeuint_bounded_failure_witness :
  Uint64.in_range 5 /\ Uint64.in_range 7 /\
  ((Is (OverflowError "-" (OfUint64 5) (OfUint64 7)) ErrOverflow = true /\
    5 < 7) \/
   (Is (OverflowError "-" (OfUint64 5) (OfUint64 7)) ErrExceedsLimit = true /\
    7 <= 5 /\ 5 - 7 < 0)).
Proof.
  assert (Ha : Uint64.in_range 5) by (int64_bounds; lia).
  assert (Hb : Uint64.in_range 7) by (int64_bounds; lia).
  split; [exact Ha | split; [exact Hb|]].
  apply (proj1 (proj2 (safeuint_bounded_failure 5 7 0
                  (OverflowError "-" (OfUint64 5) (OfUint64 7)) Ha Hb))).
  reflexivity.
Defined.

(** A truncated quotient times its divisor, on machine integers. *)
Lemma round_quot a unit :
  Int64.in_range a -> 0 < unit ->
  Int64.mul (Int64.quo a unit) unit = a - Z.rem a unit /\
  (unit | a - Z.rem a unit).
Proof.
  intros Ha Hu. rewrite quo_small, mul_quot_small by assumption.
  pose proof (Z.quot_rem' a unit) as E. split; [lia|].
  exists (Z.quot a unit). lia.
Qed.

(** Wrap-around is a congruence: an intermediate sum may wrap. *)
Lemma int64_wrap_wrap_add x y :
  Int64.wrap (Int64.wrap x + y) = Int64.wrap (x + y).
Proof.
  unfold Int64.wrap. f_equal.
  replace ((x - Int64.MinInt64) mod Int64.modulus + Int64.MinInt64 + y
           - Int64.MinInt64)
    with ((x - Int64.MinInt64) mod Int64.modulus + y) by lia.
  rewrite Zplus_mod_idemp_l. f_equal. lia.
Qed.

Lemma int64_add_sub a b c :
  Int64.sub (Int64.add a b) c = Int64.wrap (a + b - c).
Proof.
  unfold Int64.sub, Int64.add.
  replace (Int64.wrap (a + b) - c) with (Int64.wrap (a + b) + - c) by lia.
  rewrite int64_wrap_wrap_add. reflexivity.
Qed.

Lemma int64_sub_add a b c :
  Int64.add (Int64.sub a b) c = Int64.wrap (a - b + c).
Proof.
  unfold Int64.sub, Int64.add. apply int64_wrap_wrap_add.
Qed.

Ltac enter_mode :=
  unfold Rounding.RoundInt64, Rounding.RoundDown, Rounding.RoundUp,
    Rounding.RoundHalfUp, Rounding.RoundHalfDown, Rounding.RoundHalfEven,
    Rounding.RoundCeiling, Rounding.RoundFloor;
  match goal with
  | |- context [?u <=? 0] =>
      destruct (Z.leb_spec u 0) as [?|_]; [exfalso; lia|]
  end;
  cbn [Z.eqb Pos.eqb].

(** The result of the [RoundCeiling] branch. *)
Lemma RoundCeiling_spec (value unit : Z) :
  Int64.in_range value -> Int64.in_range unit -> 0 < unit ->
  value + unit - 1 <= Int64.MaxInt64 ->
  exists m, Rounding.RoundInt64 value unit Rounding.RoundCeiling = ok m /\
            (unit | m) /\ value <= m < value + unit.
Proof.
  intros Hv Hu Hpos Hfit. enter_mode. unfold Int64.rem.
  destruct (quot_rem_cases value unit Hpos) as [E Hs].
  destruct (Z.eqb_spec (Z.rem value unit) 0) as [Hal|Hal].
  - exists value. split; [reflexivity|]. split; [|lia].
    exists (Z.quot value unit). lia.
  - destruct (Z.gtb_spec value 0) as [Hgt|Hle].
    + rewrite (int64_add_sub value unit 1).
      rewrite (int64_wrap_small (value + unit - 1)) by (int64_bounds; lia).
      destruct (round_quot (value + unit - 1) unit
                  ltac:(int64_bounds; lia) Hpos) as [-> Hd].
      destruct (quot_rem_cases (value + unit - 1) unit Hpos) as [_ Hs'].
      eexists. split; [reflexivity|]. split; [exact Hd|]. lia.
    + destruct (round_quot value unit Hv Hpos) as [-> Hd].
      eexists. split; [reflexivity|]. split; [exact Hd|]. lia.
Qed.

(** [RoundCeiling] returns the least multiple of the unit that is not
    below the value, as long as [value + unit - 1] is an [int64]. *)
Theorem RoundCeiling_least_multiple (value unit : Z) :
  Int64.in_range value -> Int64.in_range unit -> 0 < unit ->
  value + unit - 1 <= Int64.MaxInt64 ->
  exists m, Rounding.RoundInt64 value unit Rounding.RoundCeiling = ok m /\
            (unit | m) /\ value <= m < value + unit.
Proof.
  exact (RoundCeiling_spec value unit).
Qed.

Lemma RoundCeiling_least_multiple_witness :
  exists m, Rounding.RoundInt64 (-151) 10 Rounding.RoundCeiling = ok m /\
            (10 | m) /\ -151 <= m < -151 + 10.
Proof.
  apply (RoundCeiling_least_multiple (-151) 10);
    try (int64_bounds; lia); lia.
Defined.

(** The result of the [RoundFloor] branch. *)
Lemma RoundFloor_spec (value unit : Z) :
  Int64.in_range value -> Int64.in_range unit -> 0 < unit ->
  Int64.MinInt64 <= value - unit + 1 ->
  exists m, Rounding.RoundInt64 value unit Rounding.RoundFloor = ok m /\
            (unit | m) /\ value - unit < m <= value.
Proof.
  intros Hv Hu Hpos Hfit. enter_mode. unfold Int64.rem.
  destruct (quot_rem_cases value unit Hpos) as [E Hs].
  destruct (Z.eqb_spec (Z.rem value unit) 0) as [Hal|Hal].
  - exists value. split; [reflexivity|]. split; [|lia].
    exists (Z.quot value unit). lia.
  - destruct (Z.gtb_spec value 0) as [Hgt|Hle].
    + destruct (round_quot value unit Hv Hpos) as [-> Hd].
      eexists. split; [reflexivity|]. split; [exact Hd|]. lia.
    + rewrite (int64_sub_add value unit 1).
      rewrite (int64_wrap_small (value - unit + 1)) by (int64_bounds; lia).
      destruct (round_quot (value - unit + 1) unit
                  ltac:(int64_bounds; lia) Hpos) as [-> Hd].
      destruct (quot_rem_cases (value - unit + 1) unit Hpos) as [_ Hs'].
      eexists. split; [reflexivity|]. split; [exact Hd|]. lia.
Qed.

(** [RoundFloor] returns the greatest multiple of the unit that is not
    above the value, as long as [value - unit + 1] is an [int64]. *)
Theorem RoundFloor_greatest_multiple (value unit : Z) :
  Int64.in_range value -> Int64.in_range unit -> 0 < unit ->
  Int64.MinInt64 <= value - unit + 1 ->
  exists m, Rounding.RoundInt64 value unit Rounding.RoundFloor = ok m /\
            (unit | m) /\ value - unit < m <= value.
Proof.
  exact (RoundFloor_spec value unit).
Qed.

Lemma RoundFloor_greatest_multiple_witness :
  exists m, Rounding.RoundInt64 (-151) 10 Rounding.RoundFloor = ok m /\
            (10 | m) /\ -151 - 10 < m <= -151.
Proof.
  apply (RoundFloor_greatest_multiple (-151) 10);
    try (int64_bounds; lia); lia.
Defined.

(** [unit / 2] on machine integers, and the parity of the unit. *)
Lemma half_unit unit :
  Int64.in_range unit -> 0 < unit ->
  exists h, Int64.quo unit 2 = h /\ 0 <= h /\
            (unit = 2 * h \/ unit = 2 * h + 1).
Proof.
  intros Hu Hpos. exists (Z.quot unit 2).
  rewrite quo_small by (assumption || lia).
  destruct (quot_rem_cases unit 2 ltac:(lia)) as [E Hs]. lia.
Qed.

(** The result of the [RoundHalfUp] branch. *)
Lemma RoundHalfUp_spec (value unit : Z) :
  0 < unit -> Z.abs value + unit <= Int64.MaxInt64 ->
  exists m, Rounding.RoundInt64 value unit Rounding.RoundHalfUp = ok m /\
            (unit | m) /\ 2 * Z.abs (m - value) <= unit /\
            (2 * Z.abs (m - value) = unit -> Z.abs value < Z.abs m).
Proof.
  intros Hpos Hfit.
  assert (Hv : Int64.in_range value) by (int64_bounds; lia).
  assert (Hu : Int64.in_range unit) by (int64_bounds; lia).
  enter_mode.
  destruct (half_unit unit Hu Hpos) as (h & -> & Hh0 & Hh).
  destruct (Z.geb_spec value 0) as [Hs|Hs].
  - unfold Int64.add.
    rewrite (int64_wrap_small (value + h)) by (int64_bounds; lia).
    destruct (round_quot (value + h) unit ltac:(int64_bounds; lia) Hpos)
      as [-> Hd].
    destruct (quot_rem_cases (value + h) unit Hpos) as [_ Hr].
    eexists. split; [reflexivity|]. split; [exact Hd|]. lia.
  - unfold Int64.sub.
    rewrite (int64_wrap_small (value - h)) by (int64_bounds; lia).
    destruct (round_quot (value - h) unit ltac:(int64_bounds; lia) Hpos)
      as [-> Hd].
    destruct (quot_rem_cases (value - h) unit Hpos) as [_ Hr].
    eexists. split; [reflexivity|]. split; [exact Hd|]. lia.
Qed.

(** [RoundHalfUp] returns a nearest multiple of the unit, and on a tie the
    one away from zero, for values at least one unit inside the [int64]
    range. *)
Theorem RoundHalfUp_nearest (value unit : Z) :
  0 < unit -> Z.abs value + unit <= Int64.MaxInt64 ->
  exists m, Rounding.RoundInt64 value unit Rounding.RoundHalfUp = ok m /\
            (unit | m) /\ 2 * Z.abs (m - value) <= unit /\
            (2 * Z.abs (m - value) = unit -> Z.abs value < Z.abs m).
Proof.
  exact (RoundHalfUp_spec value unit).
Qed.

Lemma RoundHalfUp_nearest_witness :
  exists m, Rounding.RoundInt64 (-155) 10 Rounding.RoundHalfUp = ok m /\
            (10 | m) /\ 2 * Z.abs (m - -155) <= 10 /\
            (2 * Z.abs (m - -155) = 10 -> Z.abs (-155) < Z.abs m).
Proof.
  apply (RoundHalfUp_nearest (-155) 10); [lia | int64_bounds; lia].
Defined.

Lemma quotients_adjacent unit q k x :
  0 < unit -> unit * q = unit * k + x ->
  (0 < x < 2 * unit -> q = k + 1) /\ (- 2 * unit < x < 0 -> q = k - 1).
Proof.
  intros Hu E. split; intros Hx; nia.
Qed.

(** The result of the [RoundHalfDown] branch. *)
Lemma RoundHalfDown_spec (value unit : Z) :
  0 < unit -> Z.abs value + unit <= Int64.MaxInt64 ->
  exists m, Rounding.RoundInt64 value unit Rounding.RoundHalfDown = ok m /\
            (unit | m) /\ 2 * Z.abs (m - value) <= unit /\
            (2 * Z.abs (m - value) = unit -> Z.abs m < Z.abs value).
Proof.
  intros Hpos Hfit.
  assert (Hv : Int64.in_range value) by (int64_bounds; lia).
  assert (Hu : Int64.in_range unit) by (int64_bounds; lia).
  enter_mode.
  destruct (half_unit unit Hu Hpos) as (h & -> & Hh0 & Hh).
  destruct (quot_rem_cases value unit Hpos) as [E Hr].
  unfold Int64.rem, Int64.neg.
  rewrite (int64_wrap_small (- value)) by (int64_bounds; lia).
  rewrite Z.rem_opp_l'.
  destruct (Z.geb_spec value 0) as [Hs|Hs].
  - destruct (Z.eqb_spec (Z.rem value unit) h) as [Ht|Ht].
    + destruct (round_quot value unit Hv Hpos) as [-> Hd].
      eexists. split; [reflexivity|]. split; [exact Hd|]. lia.
    + unfold Int64.add.
      rewrite (int64_wrap_small (value + h)) by (int64_bounds; lia).
      destruct (round_quot (value + h) unit ltac:(int64_bounds; lia) Hpos)
        as [-> Hd].
      destruct (quot_rem_cases (value + h) unit Hpos) as [E' Hr'].
      eexists. split; [reflexivity|]. split; [exact Hd|].
      split; [lia|]. intros Htie. exfalso.
      assert (Hr0 : Z.rem (value + h) unit = 0 /\ unit = 2 * h) by lia.
      destruct Hr0 as [Hr0 Hev].
      destruct (quotients_adjacent unit (Z.quot (value + h) unit)
                  (Z.quot value unit) (Z.rem value unit + h) Hpos
                  ltac:(lia)) as [Hq _].
      specialize (Hq ltac:(lia)). rewrite Hq in E'. lia.
  - destruct (Z.eqb_spec (- Z.rem value unit) h) as [Ht|Ht].
    + destruct (round_quot value unit Hv Hpos) as [-> Hd].
      eexists. split; [reflexivity|]. split; [exact Hd|]. lia.
    + unfold Int64.sub.
      rewrite (int64_wrap_small (value - h)) by (int64_bounds; lia).
      destruct (round_quot (value - h) unit ltac:(int64_bounds; lia) Hpos)
        as [-> Hd].
      destruct (quot_rem_cases (value - h) unit Hpos) as [E' Hr'].
      eexists. split; [reflexivity|]. split; [exact Hd|].
      split; [lia|]. intros Htie. exfalso.
      assert (Hr0 : Z.rem (value - h) unit = 0 /\ unit = 2 * h) by lia.
      destruct Hr0 as [Hr0 Hev].
      destruct (quotients_adjacent unit (Z.quot (value - h) unit)
                  (Z.quot value unit) (Z.rem value unit - h) Hpos
                  ltac:(lia)) as [_ Hq].
      specialize (Hq ltac:(lia)). rewrite Hq in E'. lia.
Qed.

(** [RoundHalfDown] returns a nearest multiple of the unit, and on a tie
    the one toward zero, for values at least one unit inside the [int64]
    range. *)
Theorem RoundHalfDown_nearest (value unit : Z) :
  0 < unit -> Z.abs value + unit <= Int64.MaxInt64 ->
  exists m, Rounding.RoundInt64 value unit Rounding.RoundHalfDown = ok m /\
            (unit | m) /\ 2 * Z.abs (m - value) <= unit /\
            (2 * Z.abs (m - value) = unit -> Z.abs m < Z.abs value).
Proof.
  exact (RoundHalfDown_spec value unit).
Qed.

Lemma RoundHalfDown_nearest_witness :
  exists m, Rounding.RoundInt64 (-155) 10 Rounding.RoundHalfDown = ok m /\
            (10 | m) /\ 2 * Z.abs (m - -155) <= 10 /\
            (2 * Z.abs (m - -155) = 10 -> Z.abs m < Z.abs (-155)).
Proof.
  apply (RoundHalfDown_nearest (-155) 10); [lia | int64_bounds; lia].
Defined.

Lemma rem2_parity k :
  (Z.rem k 2 = 0 -> Z.even k = true) /\
  (Z.rem k 2 <> 0 -> Z.even (k + 1) = true /\ Z.even (k - 1) = true).
Proof.
  destruct (quot_rem_cases k 2 ltac:(lia)) as [E Hs].
  split; intros Hr.
  - apply Z.even_spec. exists (Z.quot k 2). lia.
  - assert (Hc : Z.rem k 2 = 1 \/ Z.rem k 2 = -1) by lia.
    split; apply Z.even_spec; destruct Hc as [Hc|Hc].
    + exists (Z.quot k 2 + 1). lia.
    + exists (Z.quot k 2). lia.
    + exists (Z.quot k 2). lia.
    + exists (Z.quot k 2 - 1). lia.
Qed.

(** With an even unit, [RoundHalfEven] returns a nearest multiple of the
    unit, and on a tie the one whose quotient by the unit is even. *)
Theorem RoundHalfEven_even_unit (value unit : Z) :
  0 < unit -> Z.even unit = true ->
  Z.abs value + unit <= Int64.MaxInt64 ->
  exists m q, Rounding.RoundInt64 value unit Rounding.RoundHalfEven = ok m /\
              m = q * unit /\ 2 * Z.abs (m - value) <= unit /\
              (2 * Z.abs (m - value) = unit -> Z.even q = true).
Proof.
  intros Hpos Hev Hfit.
  assert (Hv : Int64.in_range value) by (int64_bounds; lia).
  assert (Hu : Int64.in_range unit) by (int64_bounds; lia).
  enter_mode.
  destruct (half_unit unit Hu Hpos) as (h & -> & Hh0 & Hh).
  assert (Hh2 : unit = 2 * h).
  { destruct Hh as [Hh|Hh]; [exact Hh|]. exfalso.
    apply Z.even_spec in Hev. destruct Hev as [x Hx]. lia. }
  clear Hh.
  destruct (quot_rem_cases value unit Hpos) as [E Hr].
  unfold Int64.rem, Int64.neg.
  rewrite (int64_wrap_small (- h)) by (int64_bounds; lia).
  rewrite (quo_small value unit Hv Hpos).
  set (r := Z.rem value unit) in *. set (k := Z.quot value unit) in *.
  assert (Hk2 : 0 <= k -> 2 * k <= unit * k).
  { intros. apply Z.mul_le_mono_nonneg_r; lia. }
  assert (Hk2' : k <= 0 -> unit * k <= 2 * k).
  { intros. apply Z.mul_le_mono_nonpos_r; lia. }
  destruct (rem2_parity k) as [Heven Hodd].
  destruct (quot_rem_cases k 2 ltac:(lia)) as [Ek Hks].
  destruct (Z.eqb_spec r h) as [Ht|Ht]; [|destruct (Z.eqb_spec r (- h)) as [Ht'|Ht']];
    cbn [orb].
  1,2: destruct (Z.eqb_spec (Z.rem k 2) 0) as [Hk0|Hk0];
    [ exists (k * unit), k; unfold Int64.mul;
      rewrite (int64_wrap_small (k * unit)) by (int64_bounds; lia);
      split; [reflexivity|]; split; [reflexivity|]; split; [lia|];
      intros _; apply Heven; exact Hk0
    | destruct (Z.geb_spec k 0) as [Hk|Hk];
      [ exists ((k + 1) * unit), (k + 1); unfold Int64.mul, Int64.add;
        rewrite (int64_wrap_small (k + 1)) by (int64_bounds; lia);
        rewrite (int64_wrap_small ((k + 1) * unit)) by (int64_bounds; lia);
        split; [reflexivity|]; split; [reflexivity|]; split; [lia|];
        intros _; apply Hodd; exact Hk0
      | exists ((k - 1) * unit), (k - 1); unfold Int64.mul, Int64.sub;
        rewrite (int64_wrap_small (k - 1)) by (int64_bounds; lia);
        rewrite (int64_wrap_small ((k - 1) * unit)) by (int64_bounds; lia);
        split; [reflexivity|]; split; [reflexivity|]; split; [lia|];
        intros _; apply Hodd; exact Hk0 ] ].
  destruct (Z.geb_spec value 0) as [Hs|Hs].
  - unfold Int64.add.
    rewrite (int64_wrap_small (value + h)) by (int64_bounds; lia).
    rewrite quo_small, mul_quot_small by (int64_bounds; lia).
    destruct (quot_rem_cases (value + h) unit Hpos) as [E' Hr'].
    exists (Z.quot (value + h) unit * unit), (Z.quot (value + h) unit).
    split; [reflexivity|]. split; [reflexivity|].
    split; [lia|]. intros Htie. exfalso.
    assert (Hr0 : Z.rem (value + h) unit = 0) by lia.
    destruct (quotients_adjacent unit (Z.quot (value + h) unit) k (r + h)
                Hpos ltac:(lia)) as [Hq _].
    specialize (Hq ltac:(lia)). rewrite Hq in E'. lia.
  - unfold Int64.sub.
    rewrite (int64_wrap_small (value - h)) by (int64_bounds; lia).
    rewrite quo_small, mul_quot_small by (int64_bounds; lia).
    destruct (quot_rem_cases (value - h) unit Hpos) as [E' Hr'].
    exists (Z.quot (value - h) unit * unit), (Z.quot (value - h) unit).
    split; [reflexivity|]. split; [reflexivity|].
    split; [lia|]. intros Htie. exfalso.
    assert (Hr0 : Z.rem (value - h) unit = 0) by lia.
    destruct (quotients_adjacent unit (Z.quot (value - h) unit) k (r - h)
                Hpos ltac:(lia)) as [_ Hq].
    specialize (Hq ltac:(lia)). rewrite Hq in E'. lia.
Qed.

Lemma RoundHalfEven_even_unit_witness :
  exists m q, Rounding.RoundInt64 (-170) 20 Rounding.RoundHalfEven = ok m /\
              m = q * 20 /\ 2 * Z.abs (m - -170) <= 20 /\
              (2 * Z.abs (m - -170) = 20 -> Z.even q = true).
Proof.
  apply (RoundHalfEven_even_unit (-170) 20);
    [lia | reflexivity | int64_bounds; lia].
Defined.



(** [RoundUp] against [RoundCeiling], [RoundDown] against [RoundFloor]. *)
Lemma RoundUp_Down_spec (value unit : Z) :
  Int64.in_range value -> Int64.in_range unit -> 0 < unit ->
  value + unit - 1 <= Int64.MaxInt64 ->
  Rounding.RoundInt64 value unit Rounding.RoundUp =
    Rounding.RoundInt64 value unit Rounding.RoundCeiling /\
  (0 <= value ->
   Rounding.RoundInt64 value unit Rounding.RoundDown =
     Rounding.RoundInt64 value unit Rounding.RoundFloor).
Proof.
  intros Hv Hu Hpos Hfit.
  destruct (quot_rem_cases value unit Hpos) as [E Hr].
  destruct (round_quot value unit Hv Hpos) as [Hm _].
  split; [|intros Hnn]; enter_mode; unfold Int64.rem.
  - destruct (Z.geb_spec value 0) as [Hs|Hs].
    + destruct (Z.eqb_spec (Z.rem value unit) 0) as [Hal|Hal].
      * rewrite (int64_add_sub value unit 1).
        rewrite (int64_wrap_small (value + unit - 1)) by (int64_bounds; lia).
        rewrite quo_small, mul_quot_small by (int64_bounds; lia).
        rewrite <- (Z.quot_unique (value + unit - 1) unit
                      (Z.quot value unit) (unit - 1)) by lia.
        unfold ok. f_equal. lia.
      * destruct (Z.gtb_spec value 0) as [Hgt|Hle]; [reflexivity|].
        exfalso. assert (value = 0) by lia. subst value.
        apply Hal. apply Z.rem_0_l. lia.
    + destruct (Z.eqb_spec (Z.rem value unit) 0) as [Hal|Hal].
      * rewrite Hm. unfold ok. f_equal. lia.
      * destruct (Z.gtb_spec value 0) as [Hgt|Hle]; [exfalso; lia|].
        reflexivity.
  - destruct (Z.geb_spec value 0) as [Hs|Hs]; [|exfalso; lia].
    destruct (Z.eqb_spec (Z.rem value unit) 0) as [Hal|Hal].
    + rewrite Hm. unfold ok. f_equal. lia.
    + destruct (Z.gtb_spec value 0) as [Hgt|Hle]; [reflexivity|].
      exfalso. assert (value = 0) by lia. subst value.
      apply Hal. apply Z.rem_0_l. lia.
Qed.

(** On the integer path [RoundUp] returns what [RoundCeiling] returns, for
    every value; and [RoundDown] returns what [RoundFloor] returns from
    zero upward. *)
Theorem RoundUp_Down_agree (value unit : Z) :
  Int64.in_range value -> Int64.in_range unit -> 0 < unit ->
  value + unit - 1 <= Int64.MaxInt64 ->
  Rounding.RoundInt64 value unit Rounding.RoundUp =
    Rounding.RoundInt64 value unit Rounding.RoundCeiling /\
  (0 <= value ->
   Rounding.RoundInt64 value unit Rounding.RoundDown =
     Rounding.RoundInt64 value unit Rounding.RoundFloor).
Proof.
  exact (RoundUp_Down_spec value unit).
Qed.

Lemma RoundUp_Down_agree_witness :
  Rounding.RoundInt64 (-155) 10 Rounding.RoundUp =
    Rounding.RoundInt64 (-155) 10 Rounding.RoundCeiling.
Proof.
  apply (RoundUp_Down_agree (-155) 10); try (int64_bounds; lia); lia.
Defined.

(** [RoundInt64] returns a nil error exactly when the unit is positive
    and the mode is one of the seven constants; a non-positive unit gives
    the precision failure whatever the mode. *)
Theorem RoundInt64_succeeds_iff (value unit : Z) (mode : Rounding.Mode) :
  (snd (Rounding.RoundInt64 value unit mode) = None <->
   0 < unit /\ Rounding.defined_mode mode) /\
  (unit <= 0 ->
   Rounding.RoundInt64 value unit mode = fail 0 ErrInvalidPrecision).
Proof.
  split; [|apply RoundInt64_bad_unit].
  destruct (Z.le_gt_cases unit 0) as [Hu|Hu].
  - rewrite RoundInt64_bad_unit by assumption. cbn.
    split; [discriminate | lia].
  - assert (Hd : Rounding.defined_mode mode \/ ~ Rounding.defined_mode mode)
      by (unfold Rounding.defined_mode; lia).
    destruct Hd as [Hd|Hd].
    + split; [auto|intros _].
      unfold Rounding.defined_mode in Hd.
      assert (Hc : mode = 0 \/ mode = 1 \/ mode = 2 \/ mode = 3 \/
                   mode = 4 \/ mode = 5 \/ mode = 6) by lia.
      destruct Hc as [->|[->|[->|[->|[->|[->| ->]]]]]];
        enter_mode; if_cases; reflexivity.
    + rewrite RoundInt64_default by assumption. cbn.
      split; [discriminate | tauto].
Qed.

(** [Mode.String] is ["unknown"] exactly outside the seven constants, and
    gives the seven constants distinct names. *)
Theorem Mode_String_names (m m' : Rounding.Mode) :
  (Rounding.String m = "unknown"%string <-> ~ Rounding.defined_mode m) /\
  (Rounding.defined_mode m ->
   Rounding.String m = Rounding.String m' -> m = m').
Proof.
  unfold Rounding.String, Rounding.defined_mode, Rounding.RoundDown,
    Rounding.RoundUp, Rounding.RoundHalfUp, Rounding.RoundHalfDown,
    Rounding.RoundHalfEven, Rounding.RoundCeiling, Rounding.RoundFloor.
  split.
  - bool_cases; split; intros H; try discriminate H; try lia; reflexivity.
  - intros Hd. bool_cases; intros H; try discriminate H; lia.
Qed.

Lemma multiple_close unit a b :
  0 < unit -> (unit | a) -> (unit | b) -> Z.abs (a - b) < unit -> a = b.
Proof.
  intros Hu [x ->] [y ->] Hc.
  assert (x = y) by nia. subst. reflexivity.
Qed.

(** The modes that leave a multiple of the unit as it is. *)
Lemma aligned_fixed_spec (value unit : Z) :
  0 < unit -> Z.abs value + unit <= Int64.MaxInt64 -> (unit | value) ->
  Rounding.RoundInt64 value unit Rounding.RoundUp = ok value /\
  Rounding.RoundInt64 value unit Rounding.RoundHalfUp = ok value /\
  Rounding.RoundInt64 value unit Rounding.RoundHalfDown = ok value /\
  Rounding.RoundInt64 value unit Rounding.RoundCeiling = ok value /\
  Rounding.RoundInt64 value unit Rounding.RoundFloor = ok value /\
  (0 <= value ->
   Rounding.RoundInt64 value unit Rounding.RoundDown = ok value) /\
  (2 <= unit ->
   Rounding.RoundInt64 value unit Rounding.RoundHalfEven = ok value).
Proof.
  intros Hpos Hfit Hal.
  assert (Hv : Int64.in_range value) by (int64_bounds; lia).
  assert (Hu : Int64.in_range unit) by (int64_bounds; lia).
  assert (Hrem : Z.rem value unit = 0) by (apply Z.rem_divide; [lia|exact Hal]).
  destruct (RoundCeiling_Floor_aligned value unit Hpos Hrem) as [HC HF].
  destruct (RoundUp_Down_spec value unit Hv Hu Hpos
              ltac:(int64_bounds; lia)) as [HU HD].
  destruct (RoundHalfUp_spec value unit Hpos Hfit)
    as (m1 & E1 & D1 & B1 & _).
  destruct (RoundHalfDown_spec value unit Hpos Hfit)
    as (m2 & E2 & D2 & B2 & _).
  assert (m1 = value).
  { apply (multiple_close unit); try assumption.
    destruct (Z.eq_dec (2 * Z.abs (m1 - value)) unit) as [Ht|Ht]; [|lia].
    destruct D1 as [x ->]. destruct Hal as [y ->]. exfalso.
    assert (Hxy : 2 * Z.abs ((x - y) * unit) = unit)
      by (rewrite Z.mul_sub_distr_r; exact Ht).
    rewrite Z.abs_mul, (Z.abs_eq unit) in Hxy by lia.
    assert (Z.abs (x - y) = 0 \/ 1 <= Z.abs (x - y)) by lia. nia. }
  assert (m2 = value).
  { apply (multiple_close unit); try assumption.
    destruct (Z.eq_dec (2 * Z.abs (m2 - value)) unit) as [Ht|Ht]; [|lia].
    destruct D2 as [x ->]. destruct Hal as [y ->]. exfalso.
    assert (Hxy : 2 * Z.abs ((x - y) * unit) = unit)
      by (rewrite Z.mul_sub_distr_r; exact Ht).
    rewrite Z.abs_mul, (Z.abs_eq unit) in Hxy by lia.
    assert (Z.abs (x - y) = 0 \/ 1 <= Z.abs (x - y)) by lia. nia. }
  subst m1 m2.
  split; [rewrite HU; exact HC|]. split; [exact E1|]. split; [exact E2|].
  split; [exact HC|]. split; [exact HF|].
  split; [intros Hnn; rewrite (HD Hnn); exact HF|].
  intros H2. enter_mode.
  destruct (half_unit unit Hu Hpos) as (h & -> & Hh0 & Hh).
  unfold Int64.rem, Int64.neg.
  rewrite (int64_wrap_small (- h)) by (int64_bounds; lia).
  rewrite Hrem.
  destruct (Z.eqb_spec 0 h) as [?|_]; [exfalso; lia|].
  destruct (Z.eqb_spec 0 (- h)) as [?|_]; [exfalso; lia|]. cbn [orb].
  destruct (Z.geb_spec value 0) as [Hs|Hs].
  - unfold Int64.add.
    rewrite (int64_wrap_small (value + h)) by (int64_bounds; lia).
    destruct (round_quot (value + h) unit ltac:(int64_bounds; lia) Hpos)
      as [-> Hd].
    destruct (quot_rem_cases (value + h) unit Hpos) as [_ Hr].
    unfold ok. f_equal. apply (multiple_close unit); try assumption. lia.
  - unfold Int64.sub.
    rewrite (int64_wrap_small (value - h)) by (int64_bounds; lia).
    destruct (round_quot (value - h) unit ltac:(int64_bounds; lia) Hpos)
      as [-> Hd].
    destruct (quot_rem_cases (value - h) unit Hpos) as [_ Hr].
    unfold ok. f_equal. apply (multiple_close unit); try assumption. lia.
Qed.

(** A multiple of the unit, at least one unit inside the [int64] range,
    is returned unchanged by [RoundUp], [RoundHalfUp], [RoundHalfDown],
    [RoundCeiling] and [RoundFloor]; by [RoundDown] when it is not
    negative; and by [RoundHalfEven] when the unit is at least two. *)
Theorem aligned_fixed_points (value unit : Z) :
  0 < unit -> Z.abs value + unit <= Int64.MaxInt64 -> (unit | value) ->
  Rounding.RoundInt64 value unit Rounding.RoundUp = ok value /\
  Rounding.RoundInt64 value unit Rounding.RoundHalfUp = ok value /\
  Rounding.RoundInt64 value unit Rounding.RoundHalfDown = ok value /\
  Rounding.RoundInt64 value unit Rounding.RoundCeiling = ok value /\
  Rounding.RoundInt64 value unit Rounding.RoundFloor = ok value /\
  (0 <= value ->
   Rounding.RoundInt64 value unit Rounding.RoundDown = ok value) /\
  (2 <= unit ->
   Rounding.RoundInt64 value unit Rounding.RoundHalfEven = ok value).
Proof.
  exact (aligned_fixed_spec value unit).
Qed.

Lemma aligned_fixed_points_witness :
  (10 | -150) /\
  Rounding.RoundInt64 (-150) 10 Rounding.RoundUp = ok (-150) /\
  Rounding.RoundInt64 (-150) 10 Rounding.RoundHalfEven = ok (-150).
Proof.
  assert (Hd : (10 | -150)) by (exists (-15); reflexivity).
  split; [exact Hd|].
  destruct (aligned_fixed_points (-150) 10 ltac:(lia)
              ltac:(int64_bounds; lia) Hd) as (HU & _ & _ & _ & _ & _ & HE).
  split; [exact HU | apply HE; lia].
Defined.

Section RoundFloatExtras.
Import Float64 Rounding.

(** [RoundFloat64] returns a nil error exactly when the number of decimals
    is not negative and either the value is NaN or infinite or the mode is
    one of the seven constants; negative decimals give the precision
    failure whatever the value and the mode. *)
Theorem RoundFloat64_succeeds_iff (value : float64) (decimals : Z) (mode : Mode) :
  (snd (RoundFloat64 value decimals mode) = None <->
   0 <= decimals /\
   (IsNaN value || IsInf value = true \/ defined_mode mode)) /\
  (decimals < 0 ->
   RoundFloat64 value decimals mode = (zero, Some ErrInvalidPrecision)).
Proof.
  split; [|apply RoundFloat64_bad_decimals].
  destruct (Z.lt_ge_cases decimals 0) as [Hd|Hd].
  - rewrite RoundFloat64_bad_decimals by assumption. cbn [snd].
    split; [discriminate | lia].
  - destruct (IsNaN value || IsInf value) eqn:Hs.
    + rewrite RoundFloat64_special by assumption. cbn [snd]. tauto.
    + assert (Hm : defined_mode mode \/ ~ defined_mode mode)
        by (unfold defined_mode; lia).
      destruct Hm as [Hm|Hm].
      * split; [auto|intros _]. unfold RoundFloat64.
        destruct (Z.ltb_spec decimals 0) as [?|_]; [lia|]. rewrite Hs.
        unfold defined_mode in Hm.
        assert (Hc : mode = 0 \/ mode = 1 \/ mode = 2 \/ mode = 3 \/
                     mode = 4 \/ mode = 5 \/ mode = 6) by lia.
        unfold RoundDown, RoundUp, RoundHalfUp, RoundHalfDown, RoundHalfEven,
          RoundCeiling, RoundFloor.
        destruct Hc as [->|[->|[->|[->|[->|[->| ->]]]]]]; cbn [Z.eqb Pos.eqb];
          repeat match goal with
            | |- context [let '(_, _) := ?p in _] => destruct p
            | |- context [if ?c then _ else _] => destruct c
            end; reflexivity.
      * rewrite RoundFloat64_default by assumption. cbn [snd].
        split; [discriminate|]. intros [_ [H|H]]; [discriminate H|tauto].
Qed.

Lemma Pow10_large n : 308 < n -> Pow10 n = Inf false.
Proof.
  intros Hn. unfold Pow10.
  destruct (Z.leb_spec 0 n), (Z.leb_spec n 308); try lia. cbn [andb].
  destruct (Z.leb_spec (-323) n), (Z.leb_spec n 0); try lia. cbn [andb].
  destruct (Z.gtb_spec n 0); [reflexivity|lia].
Qed.

(** Beyond 308 decimals [math.Pow10] is positive infinity, and
    [RoundFloat64] returns NaN, with a nil error, for every finite value
    under every one of the seven modes. *)
Theorem RoundFloat64_beyond_308 (value : float64) (decimals : Z) (mode : Mode) :
  308 < decimals -> IsNaN value || IsInf value = false ->
  defined_mode mode ->
  RoundFloat64 value decimals mode = (NaN, None).
Proof.
  intros Hd Hs Hm. unfold RoundFloat64.
  destruct (Z.ltb_spec decimals 0) as [?|_]; [lia|]. rewrite Hs.
  rewrite (Pow10_large decimals Hd).
  unfold defined_mode in Hm.
  assert (Hc : mode = 0 \/ mode = 1 \/ mode = 2 \/ mode = 3 \/
               mode = 4 \/ mode = 5 \/ mode = 6) by lia.
  destruct value as [s|s| |s m e]; try discriminate Hs;
    destruct s;
    destruct Hc as [->|[->|[->|[->|[->|[->| ->]]]]]]; reflexivity.
Qed.

Lemma RoundFloat64_beyond_308_witness :
  Rounding.RoundFloat64 (Float64.of_ratio 10555 1000) 309 Rounding.RoundHalfUp
    = (Float64.NaN, None).
Proof.
  apply (RoundFloat64_beyond_308 (Float64.of_ratio 10555 1000) 309);
    [lia | reflexivity | unfold Rounding.defined_mode, Rounding.RoundHalfUp; lia].
Defined.
End RoundFloatExtras.

Section RoundFloatZero.
Import Float64 Rounding.

Lemma pow10_supported_range :
  forallb (fun k => pow10_positive_finite (Z.of_nat k)) (seq 0 309) = true.
Proof. vm_compute. reflexivity. Qed.

Lemma Pow10_supported n :
  0 <= n <= 308 -> exists m e, Pow10 n = S754_finite false m e.
Proof.
  intros Hn.
  pose proof pow10_supported_range as H.
  rewrite forallb_forall in H.
  specialize (H (Z.to_nat n)).
  rewrite Z2Nat.id in H by lia.
  assert (Hin : In (Z.to_nat n) (seq 0 309)) by (apply in_seq; lia).
  specialize (H Hin). unfold pow10_positive_finite in H.
  destruct (Pow10 n) as [s|s| |s m e]; try discriminate H.
  destruct s; [discriminate H|]. eauto.
Qed.

(** Up to 308 decimals, [RoundFloat64] returns a zero for a zero under
    every one of the seven modes. *)
Theorem RoundFloat64_zero (s : bool) (decimals : Z) (mode : Mode) :
  0 <= decimals <= 308 -> defined_mode mode ->
  exists s', RoundFloat64 (S754_zero s) decimals mode = (S754_zero s', None).
Proof.
  intros Hd Hm. unfold RoundFloat64.
  destruct (Z.ltb_spec decimals 0) as [?|_]; [lia|].
  destruct (Pow10_supported decimals Hd) as (m & e & ->).
  unfold defined_mode in Hm.
  assert (Hc : mode = 0 \/ mode = 1 \/ mode = 2 \/ mode = 3 \/
               mode = 4 \/ mode = 5 \/ mode = 6) by lia.
  destruct s; destruct Hc as [->|[->|[->|[->|[->|[->| ->]]]]]];
    eexists; reflexivity.
Qed.

Lemma RoundFloat64_zero_witness :
  exists s', Rounding.RoundFloat64 (S754_zero true) 2 Rounding.RoundHalfUp =
               (S754_zero s', None).
Proof.
  apply (RoundFloat64_zero true 2 Rounding.RoundHalfUp);
    [lia | unfold Rounding.defined_mode, Rounding.RoundHalfUp; lia].
Defined.
End RoundFloatZero.

Section FloatSymmetry.
Import Float64 Rounding.

Lemma fneg_involutive x : fneg (fneg x) = x.
Proof. destruct x as [s|s| |s m e]; cbn; rewrite ?negb_involutive; reflexivity. Qed.

Lemma binary_round_aux_opp s m e l :
  binary_round_aux prec emax (negb s) m e l =
  SFopp (binary_round_aux prec emax s m e l).
Proof.
  unfold binary_round_aux.
  destruct (shr_fexp prec emax m e l) as [mrs' e'].
  destruct (shr_fexp prec emax _ e' loc_Exact) as [mrs'' e''].
  destruct (shr_m mrs'') as [|p|p]; try reflexivity.
  destruct (e'' <=? emax - prec); reflexivity.
Qed.

Lemma xorb_negb_l a b : xorb (negb a) b = negb (xorb a b).
Proof. destruct a, b; reflexivity. Qed.

Lemma fmul_opp_l x y : fmul (fneg x) y = fneg (fmul x y).
Proof.
  destruct x as [s|s| |s m e], y as [s'|s'| |s' m' e']; cbn;
    rewrite ?xorb_negb_l; try reflexivity.
  apply binary_round_aux_opp.
Qed.

Lemma fdiv_opp_l x y : fdiv (fneg x) y = fneg (fdiv x y).
Proof.
  destruct x as [s|s| |s m e], y as [s'|s'| |s' m' e'];
    try (cbn; rewrite ?xorb_negb_l; reflexivity).
  unfold fdiv, fneg, SFdiv, SFopp at 1.
  destruct (SFdiv_core_binary prec emax (Z.pos m) e (Z.pos m') e')
    as [[mz ez] lz].
  rewrite xorb_negb_l. apply binary_round_aux_opp.
Qed.

Lemma Modf_finite s m e :
  Modf (S754_finite s m e) =
  let '(i, f) := modf_nonneg (S754_finite false m e) in
  if s then (fneg i, fneg f) else (i, f).
Proof.
  unfold Modf. destruct s.
  - change (fltb (S754_finite true m e) one) with true.
    change (fltb (S754_finite true m e) zero) with true.
    reflexivity.
  - change (fltb (S754_finite false m e) zero) with false.
    rewrite andb_false_r.
    destruct (modf_nonneg (S754_finite false m e)); reflexivity.
Qed.

Lemma Trunc_opp x : Trunc (fneg x) = fneg (Trunc x).
Proof.
  destruct x as [s|s| |s m e]; try (destruct s; reflexivity);
    try reflexivity.
  unfold Trunc, fneg, SFopp.
  destruct s; cbn [negb].
  - change (feqb (S754_finite false m e) zero) with false.
    change (feqb (S754_finite true m e) zero) with false.
    cbn [IsNaN IsInf orb]. rewrite !Modf_finite.
    destruct (modf_nonneg (S754_finite false m e)) as [i f]. cbn [fst].
    symmetry. apply fneg_involutive.
  - change (feqb (S754_finite false m e) zero) with false.
    change (feqb (S754_finite true m e) zero) with false.
    cbn [IsNaN IsInf orb]. rewrite !Modf_finite.
    destruct (modf_nonneg (S754_finite false m e)) as [i f]. reflexivity.
Qed.

Lemma Floor_opp x : Floor (fneg x) = fneg (Ceil x).
Proof. unfold Ceil. rewrite fneg_involutive. reflexivity. Qed.

Lemma Ceil_opp x : Ceil (fneg x) = fneg (Floor x).
Proof. unfold Ceil. rewrite fneg_involutive. reflexivity. Qed.

(** On the floating-point path [RoundDown] and [RoundUp] commute with
    negation, and [RoundCeiling] and [RoundFloor] are mirror images of each
    other, for every value and every number of decimals that is not
    negative. *)
Theorem RoundFloat64_sign_symmetry (value : float64) (decimals : Z) :
  0 <= decimals ->
  RoundFloat64 (fneg value) decimals RoundDown =
    (fneg (fst (RoundFloat64 value decimals RoundDown)), None) /\
  RoundFloat64 (fneg value) decimals RoundUp =
    (fneg (fst (RoundFloat64 value decimals RoundUp)), None) /\
  RoundFloat64 (fneg value) decimals RoundCeiling =
    (fneg (fst (RoundFloat64 value decimals RoundFloor)), None) /\
  RoundFloat64 (fneg value) decimals RoundFloor =
    (fneg (fst (RoundFloat64 value decimals RoundCeiling)), None).
Proof.
  intros Hd. unfold RoundFloat64.
  destruct (Z.ltb_spec decimals 0) as [?|_]; [lia|].
  unfold RoundDown, RoundUp, RoundCeiling, RoundFloor. cbn [Z.eqb Pos.eqb].
  generalize (Pow10 decimals). intros mult.
  destruct value as [s|s| |s m e].
  - repeat split; destruct s; destruct mult as [s'|s'| |s' m' e'];
      try destruct s'; reflexivity.
  - repeat split; reflexivity.
  - repeat split; reflexivity.
  - change (IsNaN (fneg (S754_finite s m e)) || IsInf (fneg (S754_finite s m e)))
      with false.
    change (IsNaN (S754_finite s m e) || IsInf (S754_finite s m e)) with false.
    rewrite !fmul_opp_l.
    repeat split.
    + rewrite Trunc_opp, fdiv_opp_l. reflexivity.
    + destruct s.
      * change (fgeb (fneg (S754_finite true m e)) zero) with true.
        change (fgeb (S754_finite true m e) zero) with false.
        cbn [fst]. rewrite Ceil_opp, fdiv_opp_l. reflexivity.
      * change (fgeb (fneg (S754_finite false m e)) zero) with false.
        change (fgeb (S754_finite false m e) zero) with true.
        cbn [fst]. rewrite Floor_opp, fdiv_opp_l. reflexivity.
    + rewrite Ceil_opp, fdiv_opp_l. reflexivity.
    + rewrite Floor_opp, fdiv_opp_l. reflexivity.
Qed.

Lemma RoundFloat64_sign_symmetry_witness :
  Rounding.RoundFloat64 (Float64.fneg (Float64.of_ratio 10555 1000)) 2
    Rounding.RoundUp =
  (Float64.fneg (fst (Rounding.RoundFloat64 (Float64.of_ratio 10555 1000) 2
                        Rounding.RoundUp)), None).
Proof.
  exact (proj1 (proj2 (RoundFloat64_sign_symmetry
                         (Float64.of_ratio 10555 1000) 2 ltac:(lia)))).
Defined.
End FloatSymmetry.

Section SafedecFacts.
Import Safedec.
Variable L : DecimalLib.

Lemma accepted_mode_cases mode :
  accepted_mode mode ->
  mode = 0 \/ mode = 1 \/ mode = 2 \/ mode = 4 \/ mode = 5 \/ mode = 6.
Proof.
  unfold accepted_mode, Rounding.RoundHalfDown. lia.
Qed.

(** The modes listed by the switch of [Decimal.Round]. *)
Lemma Round_modes_spec (d : Decimal L) (places : Z) (mode : Rounding.Mode) :
  (snd (Round L d places mode) = None <-> accepted_mode mode) /\
  (~ accepted_mode mode ->
   Round L d places mode = (empty L, Some ErrInvalidRounding)) /\
  Round L d places Rounding.RoundHalfDown =
    (empty L, Some ErrInvalidRounding).
Proof.
  assert (Hrej : ~ accepted_mode mode ->
                 Round L d places mode = (empty L, Some ErrInvalidRounding)).
  { unfold accepted_mode, Round, Rounding.RoundDown, Rounding.RoundUp,
      Rounding.RoundHalfUp, Rounding.RoundHalfDown, Rounding.RoundHalfEven,
      Rounding.RoundCeiling, Rounding.RoundFloor.
    intros Hm. bool_cases; reflexivity. }
  split; [|split; [exact Hrej | reflexivity]].
  assert (Hd : accepted_mode mode \/ ~ accepted_mode mode)
    by (unfold accepted_mode, Rounding.RoundHalfDown; lia).
  destruct Hd as [Hd|Hd].
  - split; [auto|intros _].
    destruct (accepted_mode_cases mode Hd)
      as [->|[->|[->|[->|[->| ->]]]]]; reflexivity.
  - rewrite (Hrej Hd). cbn [snd]. split; [discriminate|tauto].
Qed.

(** [Decimal.Round] of package safedec lists six modes in its switch:
    [RoundHalfDown], one of the seven constants, is rejected with the
    InvalidRoundingMode failure like the values outside the constants. *)
Theorem safedec_Round_modes (d : Decimal L) (places : Z) (mode : Rounding.Mode) :
  (snd (Round L d places mode) = None <-> accepted_mode mode) /\
  (~ accepted_mode mode ->
   Round L d places mode = (empty L, Some ErrInvalidRounding)) /\
  Round L d places Rounding.RoundHalfDown =
    (empty L, Some ErrInvalidRounding).
Proof.
  exact (Round_modes_spec d places mode).
Qed.

(** [Decimal.DivRound] is [Div] followed by [Round]: a zero divisor gives
    the DivideByZero failure whatever the mode, and otherwise the outcome
    is that of rounding the quotient. *)
Theorem safedec_DivRound_composes
  (d other : Decimal L) (places : Z) (mode : Rounding.Mode) :
  DivRound L d other places mode =
    match Div L d other with
    | (q, None) => Round L q places mode
    | (_, Some err) => (empty L, Some err)
    end /\
  (IsZero L other = true ->
   DivRound L d other places mode = (empty L, Some ErrDivideByZero)).
Proof.
  unfold DivRound, Div, Round.
  destruct (IsZero L other); split; try reflexivity. discriminate.
Qed.
End SafedecFacts.

Section TaxRuleFacts.
Import Safedec Rules.
Variable L : DecimalLib.

(** [TaxRule.CalculateTax]: as the decimal [100] is not zero, the division
    never fails, and the only failure is InvalidRoundingMode, returned with
    [Zero] exactly when the amount is taxable and the rule's mode is not
    one that [Decimal.Round] accepts. *)
Theorem CalculateTax_failure (r : TaxRule L) (amount : Decimal L) :
  IsZero L (NewFromInt L 100) = false ->
  (snd (CalculateTax L r amount) = None <->
   LessThan L amount (MinTaxableAmount L r) = true \/
   accepted_mode (RoundingMode L r)) /\
  (forall e, snd (CalculateTax L r amount) = Some e ->
     CalculateTax L r amount = (Zero L, Some ErrInvalidRounding)).
Proof.
  intros H100. unfold CalculateTax, Div. rewrite H100.
  destruct (LessThan L amount (MinTaxableAmount L r)) eqn:Hlt.
  - cbn [snd]. split; [tauto | discriminate].
  - set (q := {| value := _ |}).
    destruct (Round_modes_spec L q (RoundingPrecision L r)
                (RoundingMode L r)) as (Hiff & Hrej & _).
    assert (Hd : accepted_mode (RoundingMode L r) \/
                 ~ accepted_mode (RoundingMode L r))
      by (unfold accepted_mode, Rounding.RoundHalfDown; lia).
    destruct Hd as [Hd|Hd].
    + apply Hiff in Hd.
      destruct (Round L q (RoundingPrecision L r) (RoundingMode L r))
        as [t [e|]]; [discriminate Hd|].
      destruct (GreaterThan L t (MaxTaxAmount L r)); cbn [snd];
        (split; [tauto | discriminate]).
    + rewrite (Hrej Hd). cbn [snd].
      split; [|reflexivity].
      split; [discriminate|]. intros [H|H]; [discriminate H|contradiction].
Qed.

(** A tax computed by [TaxRule.CalculateTax] for a taxable amount is never
    greater than the rule's maximum. *)
Theorem CalculateTax_capped (r : TaxRule L) (amount res : Decimal L) :
  (forall x, GreaterThan L x x = false) ->
  LessThan L amount (MinTaxableAmount L r) = false ->
  CalculateTax L r amount = (res, None) ->
  GreaterThan L res (MaxTaxAmount L r) = false.
Proof.
  intros Hirr Hlt. unfold CalculateTax. rewrite Hlt.
  destruct (Div L _ _) as [q [e|]]; [discriminate|].
  destruct (Round L q _ _) as [t [e|]]; [discriminate|].
  destruct (GreaterThan L t (MaxTaxAmount L r)) eqn:Hgt;
    intros Heq; inversion Heq; subst; auto.
Qed.

End TaxRuleFacts.

Lemma CalculateTax_failure_witness :
  Rules.CalculateTax integer_decimals
    {| Rules.TaxRate := Safedec.mkDecimal integer_decimals 10;
       Rules.MinTaxableAmount := Safedec.mkDecimal integer_decimals 0;
       Rules.MaxTaxAmount := Safedec.mkDecimal integer_decimals 1000;
       Rules.RoundingMode := Rounding.RoundHalfDown;
       Rules.RoundingPrecision := 2 |}
    (Safedec.mkDecimal integer_decimals 500) =
  (Safedec.Zero integer_decimals, Some ErrInvalidRounding).
Proof.
  apply (proj2 (CalculateTax_failure integer_decimals _ _ eq_refl)
           ErrInvalidRounding).
  reflexivity.
Defined.

Lemma CalculateTax_capped_witness :
  Rules.CalculateTax integer_decimals
    {| Rules.TaxRate := Safedec.mkDecimal integer_decimals 10;
       Rules.MinTaxableAmount := Safedec.mkDecimal integer_decimals 0;
       Rules.MaxTaxAmount := Safedec.mkDecimal integer_decimals 1000;
       Rules.RoundingMode := Rounding.RoundHalfUp;
       Rules.RoundingPrecision := 2 |}
    (Safedec.mkDecimal integer_decimals 50000) =
    (Safedec.mkDecimal integer_decimals 1000, None) /\
  Safedec.GreaterThan integer_decimals
    (Safedec.mkDecimal integer_decimals 1000)
    (Safedec.mkDecimal integer_decimals 1000) = false.
Proof.
  split; [reflexivity|].
  apply (CalculateTax_capped integer_decimals
           {| Rules.TaxRate := Safedec.mkDecimal integer_decimals 10;
              Rules.MinTaxableAmount := Safedec.mkDecimal integer_decimals 0;
              Rules.MaxTaxAmount := Safedec.mkDecimal integer_decimals 1000;
              Rules.RoundingMode := Rounding.RoundHalfUp;
              Rules.RoundingPrecision := 2 |}
           (Safedec.mkDecimal integer_decimals 50000)
           (Safedec.mkDecimal integer_decimals 1000)).
  - intros [x]. unfold Safedec.GreaterThan. cbn.
    destruct (Z.ltb_spec x x); [lia | reflexivity].
  - reflexivity.
  - reflexivity.
Defined.

Lemma multiple_lt_le unit a b :
  0 < unit -> (unit | a) -> (unit | b) -> a < b + unit -> a <= b.
Proof.
  intros Hu [x ->] [y ->] Hc.
  assert (x <= y) by nia. nia.
Qed.

(** [RoundFloor] and [RoundCeiling] are monotone in the value. *)
Theorem RoundFloor_Ceiling_monotone (v1 v2 unit m1 m2 : Z) :
  0 < unit -> Z.abs v1 + unit <= Int64.MaxInt64 ->
  Z.abs v2 + unit <= Int64.MaxInt64 -> v1 <= v2 ->
  (Rounding.RoundInt64 v1 unit Rounding.RoundFloor = ok m1 ->
   Rounding.RoundInt64 v2 unit Rounding.RoundFloor = ok m2 -> m1 <= m2) /\
  (Rounding.RoundInt64 v1 unit Rounding.RoundCeiling = ok m1 ->
   Rounding.RoundInt64 v2 unit Rounding.RoundCeiling = ok m2 -> m1 <= m2).
Proof.
  intros Hpos H1 H2 Hle.
  assert (Hu : Int64.in_range unit) by (int64_bounds; lia).
  split; intros E1 E2.
  - destruct (RoundFloor_spec v1 unit
                ltac:(int64_bounds; lia) Hu Hpos ltac:(int64_bounds; lia))
      as (a & Ea & Da & Ba).
    destruct (RoundFloor_spec v2 unit
                ltac:(int64_bounds; lia) Hu Hpos ltac:(int64_bounds; lia))
      as (b & Eb & Db & Bb).
    rewrite E1 in Ea. rewrite E2 in Eb.
    apply ok_inj in Ea. apply ok_inj in Eb. subst a b.
    apply (multiple_lt_le unit); try assumption. lia.
  - destruct (RoundCeiling_spec v1 unit
                ltac:(int64_bounds; lia) Hu Hpos ltac:(int64_bounds; lia))
      as (a & Ea & Da & Ba).
    destruct (RoundCeiling_spec v2 unit
                ltac:(int64_bounds; lia) Hu Hpos ltac:(int64_bounds; lia))
      as (b & Eb & Db & Bb).
    rewrite E1 in Ea. rewrite E2 in Eb.
    apply ok_inj in Ea. apply ok_inj in Eb. subst a b.
    apply (multiple_lt_le unit); try assumption. lia.
Qed.

Lemma RoundFloor_Ceiling_monotone_witness :
  Rounding.RoundInt64 (-151) 10 Rounding.RoundFloor = ok (-160) /\
  Rounding.RoundInt64 159 10 Rounding.RoundFloor = ok 150 /\
  -160 <= 150.
Proof.
  split; [reflexivity | split; [reflexivity|]].
  apply (proj1 (RoundFloor_Ceiling_monotone (-151) 159 10 (-160) 150
                  ltac:(lia) ltac:(int64_bounds; lia)
                  ltac:(int64_bounds; lia) ltac:(lia)));
    reflexivity.
Defined.

(** Rounding twice is rounding once, under [RoundUp], [RoundHalfUp],
    [RoundHalfDown], [RoundCeiling] and [RoundFloor]. *)
Theorem RoundInt64_idempotent (value unit m : Z) :
  0 < unit -> Z.abs value + 2 * unit <= Int64.MaxInt64 ->
  (Rounding.RoundInt64 value unit Rounding.RoundUp = ok m ->
   Rounding.RoundInt64 m unit Rounding.RoundUp = ok m) /\
  (Rounding.RoundInt64 value unit Rounding.RoundHalfUp = ok m ->
   Rounding.RoundInt64 m unit Rounding.RoundHalfUp = ok m) /\
  (Rounding.RoundInt64 value unit Rounding.RoundHalfDown = ok m ->
   Rounding.RoundInt64 m unit Rounding.RoundHalfDown = ok m) /\
  (Rounding.RoundInt64 value unit Rounding.RoundCeiling = ok m ->
   Rounding.RoundInt64 m unit Rounding.RoundCeiling = ok m) /\
  (Rounding.RoundInt64 value unit Rounding.RoundFloor = ok m ->
   Rounding.RoundInt64 m unit Rounding.RoundFloor = ok m).
Proof.
  intros Hpos Hfit.
  assert (Hv : Int64.in_range value) by (int64_bounds; lia).
  assert (Hu : Int64.in_range unit) by (int64_bounds; lia).
  assert (Hfix : (unit | m) -> Z.abs (m - value) < unit ->
                 Rounding.RoundInt64 m unit Rounding.RoundUp = ok m /\
                 Rounding.RoundInt64 m unit Rounding.RoundHalfUp = ok m /\
                 Rounding.RoundInt64 m unit Rounding.RoundHalfDown = ok m /\
                 Rounding.RoundInt64 m unit Rounding.RoundCeiling = ok m /\
                 Rounding.RoundInt64 m unit Rounding.RoundFloor = ok m).
  { intros Hd Hb.
    destruct (aligned_fixed_spec m unit Hpos ltac:(int64_bounds; lia) Hd)
      as (F1 & F2 & F3 & F4 & F5 & _). auto. }
  destruct (RoundUp_Down_spec value unit Hv Hu Hpos
              ltac:(int64_bounds; lia)) as [HU _].
  destruct (RoundCeiling_spec value unit Hv Hu Hpos
              ltac:(int64_bounds; lia)) as (c & Ec & Dc & Bc).
  destruct (RoundFloor_spec value unit Hv Hu Hpos
              ltac:(int64_bounds; lia)) as (f & Ef & Df & Bf).
  destruct (RoundHalfUp_spec value unit Hpos ltac:(lia))
    as (u & Eu & Du & Bu & _).
  destruct (RoundHalfDown_spec value unit Hpos ltac:(lia))
    as (d & Ed & Dd & Bd & _).
  rewrite HU, Ec, Ef, Eu, Ed.
  repeat split; intros E; apply ok_inj in E; subst m;
    apply Hfix; try assumption; lia.
Qed.

Lemma RoundInt64_idempotent_witness :
  Rounding.RoundInt64 155 10 Rounding.RoundHalfUp = ok 160 /\
  Rounding.RoundInt64 160 10 Rounding.RoundHalfUp = ok 160.
Proof.
  split; [reflexivity|].
  apply (proj1 (proj2 (RoundInt64_idempotent 155 10 160
                         ltac:(lia) ltac:(int64_bounds; lia)))).
  reflexivity.
Defined.
